(** * Rock-Paper-Scissors frame server: the match state machine of [src/index.ts]

    A shallow embedding of the Express handlers of the frame server and the
    properties of its PvP match store.

    Conventions of the embedding:
    - [fid] and [buttonIndex] are JavaScript numbers that hold integers (a
      Farcaster id and a 1-based button position); they are modelled as [Z].
      JavaScript truthiness is written out: [!match.playerB] holds for
      [undefined] and also for the number 0.
    - [matches : Map<string, MatchState>] is a [gmap string MatchState].  The
      handler mutates the object it got from [matches.get]; the embedding
      writes the mutated record back under the same key.
    - [Date.now()], the random draw of the bot and the Neynar validation call
      are inputs of the model.
    - A handler body has no [await]: once verification is done it runs to
      completion, so one callback is one transition of the store. *)

From Stdlib Require Import ZArith String Ascii List Lia.
From stdpp Require Import base option gmap strings pretty list.

Open Scope string_scope.
Open Scope Z_scope.

(** ** Data model *)

Inductive Move : Type := rock | paper | scissors.

Global Instance Move_eq_dec : EqDecision Move.
Proof. solve_decision. Defined.

(** The string a [Move] is at run time. *)
Definition moveName (m : Move) : string :=
  match m with rock => "rock" | paper => "paper" | scissors => "scissors" end.

Inductive Mode : Type := bot | pvp.

Record MatchState : Type := mkMatch {
  id : string;
  mode : Mode;
  playerA : Z;
  playerB : option Z;
  moveA : option Move;
  moveB : option Move;
  createdAt : Z
}.

(** Field assignments [match.playerB = v], [match.moveA = v], [match.moveB = v]. *)
Definition set_playerB (v : option Z) (m : MatchState) : MatchState :=
  mkMatch (id m) (mode m) (playerA m) v (moveA m) (moveB m) (createdAt m).
Definition set_moveA (v : option Move) (m : MatchState) : MatchState :=
  mkMatch (id m) (mode m) (playerA m) (playerB m) v (moveB m) (createdAt m).
Definition set_moveB (v : option Move) (m : MatchState) : MatchState :=
  mkMatch (id m) (mode m) (playerA m) (playerB m) (moveA m) v (createdAt m).

(** [!x] for an optional number: true for [undefined] and for 0. *)
Definition jsNotNum (x : option Z) : bool :=
  match x with
  | None => true
  | Some n => n =? 0
  end.

(** [!x] for an optional [Move]: the three move strings are non-empty, so only
    [undefined] is falsy. *)
Definition jsNotMove (x : option Move) : bool :=
  match x with
  | None => true
  | Some _ => false
  end.

(** [!s] for an optional string: true for [undefined] and for the empty string. *)
Definition jsNotStr (x : option string) : bool :=
  match x with
  | None => true
  | Some s => bool_decide (s = EmptyString)
  end.

(** [fid === match.playerB]: strict equality with a possibly undefined number. *)
Definition strictEqOpt (n : Z) (x : option Z) : bool :=
  match x with
  | None => false
  | Some k => n =? k
  end.

(** ** Move resolver *)

Definition decideWinner (a b : Move) : Z :=
  if bool_decide (a = b) then 0
  else if (bool_decide (a = rock) && bool_decide (b = scissors))
       || (bool_decide (a = paper) && bool_decide (b = rock))
       || (bool_decide (a = scissors) && bool_decide (b = paper))
  then 1
  else 2.

(** [chooseBotMove] indexes [choices] with [floor (random * 3)]; the index
    drawn is the input [k]. *)
Definition choices : list Move := [rock; paper; scissors].
Definition chooseBotMove (k : nat) : option Move := choices !! k.

(** The literal [{ 1: "rock", 2: "paper", 3: "scissors" }] read at a key. *)
Definition moveMap (i : Z) : option Move :=
  if i =? 1 then Some rock
  else if i =? 2 then Some paper
  else if i =? 3 then Some scissors
  else None.

(** ** Screen renderer *)

Inductive ButtonAction : Type := post | url.

Definition actionName (a : ButtonAction) : string :=
  match a with post => "post" | url => "url" end.

Record ButtonSpec : Type := mkButton {
  label : string;
  action : option ButtonAction;
  target : option string
}.

(** [{ label: l }] *)
Definition btn (l : string) : ButtonSpec := mkButton l None None.

Record Frame : Type := mkFrame {
  title : string;
  image : string;
  buttons : list ButtonSpec;
  postUrl : string
}.

Definition dq : string := String (ascii_of_nat 34) EmptyString.
Definition nl : string := String (ascii_of_nat 10) EmptyString.
Definition tab : string := String (ascii_of_nat 9) EmptyString.

(** [<meta property="p" content="c" />] *)
Definition metaTag (p c : string) : string :=
  "<meta property=" +:+ dq +:+ p +:+ dq +:+ " content=" +:+ dq +:+ c +:+ dq +:+ " />".

(** The callback of [buttons.map]: [idx] is the 0-based position. *)
Definition buttonMeta (idx : nat) (b : ButtonSpec) : string :=
  let i := pretty (Z.of_nat idx + 1) in
  let base := metaTag ("fc:frame:button:" +:+ i) (label b) in
  let act := match action b with
             | Some a => metaTag ("fc:frame:button:" +:+ i +:+ ":action") (actionName a)
             | None => EmptyString
             end in
  let tgt := if jsNotStr (target b) then EmptyString
             else metaTag ("fc:frame:button:" +:+ i +:+ ":target") (default EmptyString (target b)) in
  base +:+ act +:+ tgt.

(** [xs.join("")] *)
Definition joinEmpty (xs : list string) : string :=
  foldr String.append EmptyString xs.

Definition frameMeta (f : Frame) : string :=
  "<!DOCTYPE html><html><head>" +:+ nl +:+
  tab +:+ metaTag "fc:frame" "vNext" +:+ nl +:+
  tab +:+ metaTag "og:title" (title f) +:+ nl +:+
  tab +:+ metaTag "og:image" (image f) +:+ nl +:+
  tab +:+ joinEmpty (imap buttonMeta (buttons f)) +:+ nl +:+
  tab +:+ metaTag "fc:frame:post_url" (postUrl f) +:+ nl +:+
  tab +:+ "</head></html>".

(** What [res.set("Content-Type", "text/html").status(s).send(frameMeta(f))]
    sends.  The descriptor handed to [frameMeta] is kept, so that the title,
    the buttons and the callback target of a response can be read back; the
    bytes sent are [body]. *)
Record Response : Type := mkResponse {
  status : Z;
  screen : Frame
}.

Definition body (r : Response) : string := frameMeta (screen r).

(** [res.send] without [status]: 200. *)
Definition send (f : Frame) : Response := mkResponse 200 f.

(** ** Configuration *)

Record Env : Type := mkEnv {
  PUBLIC_URL : option string;
  PORT : option string;
  BASE_CONNECT_URL : option string;
  ARB_CONNECT_URL : option string
}.

(** [process.env.X || d] *)
Definition envOr (x : option string) (d : string) : string :=
  if jsNotStr x then d else default d x.

(** ** Verified actions and the Neynar reply *)

Record VerifiedAction : Type := mkAction {
  fid : Z;
  buttonIndex : Z;
  query : option (gmap string string)
}.

(** [query?.matchId] *)
Definition queryMatchId (va : VerifiedAction) : option string :=
  q ← query va; q !! "matchId".

(** [req.body?.trustedData?.messageBytes] is all the middleware reads of a
    request. *)
Record Request : Type := mkRequest {
  messageBytes : option string
}.

(** The fields the middleware reads of [validation.action]:
    [interactor.fid], [tapped_button.index] and [url] (as a string). *)
Record FrameAction : Type := mkFrameAction {
  interactor_fid : Z;
  tapped_button_index : Z;
  action_url : string
}.

Record Validation : Type := mkValidation {
  valid : bool;
  validated : option FrameAction
}.

(** What [await neynar.validateFrameAction(...)] does: it throws, or it
    yields a possibly undefined validation. *)
Inductive NeynarReply : Type :=
  | Throws
  | Yields (v : option Validation).

(** ** Handlers *)

Section Handlers.

Variable env : Env.

(** [const port = process.env.PORT || 3000], as it prints in a template. *)
Definition port : string := envOr (PORT env) "3000".

Definition publicUrl (path : string) : string :=
  envOr (PUBLIC_URL env) ("http://localhost:" +:+ port) +:+ path.

(** *** [unauthorized] and [GET /] *)

Definition unauthorized (ttl : string) : Response :=
  mkResponse 401
    (mkFrame ttl (publicUrl "/images/error.png") [btn "Back"] (publicUrl "/")).

Definition homeFrame : Frame :=
  mkFrame "Rock Paper Scissors" (publicUrl "/images/start.png")
    [btn "Play Bot"; btn "Create PvP"; btn "How to Play"; btn "Connect Wallet"]
    (publicUrl "/action").

Definition get_root : Response := send homeFrame.

(** *** [POST /action]

    [nowId] and [nowCreated] are the two reads of [Date.now()], in the
    order the handler makes them. *)

Definition newMatchId (nowId f : Z) : string :=
  pretty nowId +:+ "-" +:+ pretty f.

Definition action_handler (nowId nowCreated : Z)
    (matches : gmap string MatchState) (va : VerifiedAction)
    : gmap string MatchState * Response :=
  if buttonIndex va =? 1 then
    (matches,
     send (mkFrame "Play Bot - Choose" (publicUrl "/images/choose.png")
             [btn "Rock"; btn "Paper"; btn "Scissors"; btn "Back"]
             (publicUrl "/bot")))
  else if buttonIndex va =? 2 then
    let matchId := newMatchId nowId (fid va) in
    (<[matchId := mkMatch matchId pvp (fid va) None None None nowCreated]> matches,
     send (mkFrame "PvP Lobby Created" (publicUrl "/images/lobby.png")
             [btn "Share"; btn "Cancel"; btn "Connect Wallet"; btn "Back"]
             (publicUrl ("/pvp?matchId=" +:+ matchId))))
  else if buttonIndex va =? 3 then
    (matches,
     send (mkFrame "How to Play" (publicUrl "/images/howto.png")
             [btn "Play Bot"; btn "Create PvP"; btn "Back"]
             (publicUrl "/action")))
  else if buttonIndex va =? 4 then
    let baseLink := envOr (BASE_CONNECT_URL env) "https://wallet.coinbase.com/" in
    let arbLink := envOr (ARB_CONNECT_URL env) "https://portal.arbitrum.io/" in
    (matches,
     send (mkFrame "Connect Wallet" (publicUrl "/images/connect.png")
             [mkButton "Base" (Some url) (Some baseLink);
              mkButton "Arbitrum" (Some url) (Some arbLink);
              btn "Back"]
             (publicUrl "/connect")))
  else
    (matches,
     send (mkFrame "Rock Paper Scissors" (publicUrl "/images/start.png")
             [btn "Play Bot"; btn "Create PvP"; btn "How to Play"; btn "Connect Wallet"]
             (publicUrl "/action"))).

(** *** [POST /bot]

    [k] is the index [chooseBotMove] draws. *)

Definition outcomeTitle (result : Z) : string :=
  if result =? 0 then "Draw!" else if result =? 1 then "You Win!" else "Bot Wins!".

Definition chooseFrame : Frame :=
  mkFrame "Choose a move" (publicUrl "/images/choose.png")
    [btn "Rock"; btn "Paper"; btn "Scissors"; btn "Back"]
    (publicUrl "/bot").

Definition bot_handler (k : nat) (va : VerifiedAction) : Response :=
  match moveMap (buttonIndex va) with
  | None => send chooseFrame
  | Some playerMove =>
      (* an index outside [choices] reads [undefined]; [decideWinner] answers 2 for it *)
      let botName := from_option moveName "undefined" (chooseBotMove k) in
      let result := from_option (decideWinner playerMove) 2 (chooseBotMove k) in
      send (mkFrame ("Bot chose " +:+ botName +:+ ". " +:+ outcomeTitle result)
              (publicUrl "/images/result.png")
              [btn "Play Again"; btn "Home"; btn "Connect Wallet"]
              (publicUrl "/action"))
  end.

(** *** [POST /pvp] *)

Definition notFoundFrame : Frame :=
  mkFrame "PvP Match Not Found" (publicUrl "/images/error.png")
    [btn "Home"] (publicUrl "/action").

(** [if (!match.playerB && fid !== match.playerA) match.playerB = fid] *)
Definition bindOpponent (f : Z) (m : MatchState) : MatchState :=
  if jsNotNum (playerB m) && negb (f =? playerA m)
  then set_playerB (Some f) m
  else m.

(** The block under [// Moves]. *)
Definition recordMove (f b : Z) (m : MatchState) : MatchState :=
  if (1 <=? b) && (b <=? 3) then
    let mv := moveMap b in
    let m1 := if f =? playerA m then set_moveA mv m else m in
    if strictEqOpt f (playerB m1) then set_moveB mv m1 else m1
  else m.

Definition waitingFrame (matchId : string) (m : MatchState) : Frame :=
  mkFrame (if jsNotNum (playerB m) then "Waiting for opponent" else "Waiting for both moves")
    (publicUrl "/images/lobby.png")
    [btn "Rock"; btn "Paper"; btn "Scissors"; btn "Cancel"]
    (publicUrl ("/pvp?matchId=" +:+ matchId)).

(** The title computed from [decideWinner(match.moveA, match.moveB)]. *)
Definition resultTitle (pa pb : Z) (a b : Move) : string :=
  let result := decideWinner a b in
  let t0 := "Draw!" in
  let t1 := if result =? 1 then "Player " +:+ pretty pa +:+ " wins!" else t0 in
  if result =? 2 then "Player " +:+ pretty pb +:+ " wins!" else t1.

Definition resultFrame (ttl : string) : Frame :=
  mkFrame ttl (publicUrl "/images/result.png")
    [btn "Rematch"; btn "Home"; btn "Connect Wallet"]
    (publicUrl "/action").

(** The guard [!match.playerB || !match.moveA || !match.moveB]. *)
Definition mustWait (m : MatchState) : bool :=
  jsNotNum (playerB m) || jsNotMove (moveA m) || jsNotMove (moveB m).

Definition pvp_handler (matches : gmap string MatchState) (va : VerifiedAction)
    : gmap string MatchState * Response :=
  let matchId := queryMatchId va in
  match matchId with
  | None => (matches, send notFoundFrame)
  | Some mid =>
      if jsNotStr matchId then (matches, send notFoundFrame)
      else
        match matches !! mid with
        | None => (matches, send notFoundFrame)
        | Some m0 =>
            let m1 := bindOpponent (fid va) m0 in
            let m2 := recordMove (fid va) (buttonIndex va) m1 in
            (* the [match] names the three fields the guard tests; a record
               with one of them undefined always takes the waiting branch *)
            match playerB m2, moveA m2, moveB m2 with
            | Some pb, Some a, Some b =>
                if mustWait m2 then (<[mid := m2]> matches, send (waitingFrame mid m2))
                else (delete mid matches, send (resultFrame (resultTitle (playerA m2) pb a b)))
            | _, _, _ => (<[mid := m2]> matches, send (waitingFrame mid m2))
            end
        end
  end.

(** *** [POST /connect] *)

Definition connect_handler : Response :=
  send (mkFrame "Connect Wallet" (publicUrl "/images/connect.png")
          [mkButton "Base" (Some url)
             (Some (envOr (BASE_CONNECT_URL env) "https://wallet.coinbase.com/"));
           mkButton "Arbitrum" (Some url)
             (Some (envOr (ARB_CONNECT_URL env) "https://portal.arbitrum.io/"));
           btn "Back"]
          (publicUrl "/action")).

(** *** [verifyFrameAction] and the routes

    [validateFrameAction] is the call to the Neynar service.  [searchParams]
    is [Object.fromEntries(new URLSearchParams(new URL(u).search))], [None]
    when [new URL(u)] throws. *)

Variable validateFrameAction : string → NeynarReply.
Variable searchParams : string → option (gmap string string).

(** [inl r]: the middleware answered with [r]; [inr va]: it called [next()]
    with [req.verifiedAction = va]. *)
Definition verifyFrameAction (req : Request) : Response + VerifiedAction :=
  if jsNotStr (messageBytes req) then inl (unauthorized "Missing messageBytes")
  else
    match validateFrameAction (default EmptyString (messageBytes req)) with
    | Throws => inl (unauthorized "Verification error")
    | Yields None => inl (unauthorized "Invalid signature")
    | Yields (Some v) =>
        match validated v with
        | None => inl (unauthorized "Invalid signature")
        | Some a =>
            if negb (valid v) then inl (unauthorized "Invalid signature")
            else
              match searchParams (action_url a) with
              | None => inl (unauthorized "Verification error")
              | Some q =>
                  inr (mkAction (interactor_fid a) (tapped_button_index a) (Some q))
              end
        end
    end.

Definition post_action (nowId nowCreated : Z) (matches : gmap string MatchState)
    (req : Request) : gmap string MatchState * Response :=
  match verifyFrameAction req with
  | inl r => (matches, r)
  | inr va => action_handler nowId nowCreated matches va
  end.

Definition post_bot (k : nat) (matches : gmap string MatchState)
    (req : Request) : gmap string MatchState * Response :=
  match verifyFrameAction req with
  | inl r => (matches, r)
  | inr va => (matches, bot_handler k va)
  end.

Definition post_pvp (matches : gmap string MatchState)
    (req : Request) : gmap string MatchState * Response :=
  match verifyFrameAction req with
  | inl r => (matches, r)
  | inr va => pvp_handler matches va
  end.

Definition post_connect (matches : gmap string MatchState)
    (req : Request) : gmap string MatchState * Response :=
  match verifyFrameAction req with
  | inl r => (matches, r)
  | inr _ => (matches, connect_handler)
  end.

(** A run of verified callbacks on [/pvp]: the store after the last one. *)
Definition pvp_run (matches : gmap string MatchState) (vas : list VerifiedAction)
    : gmap string MatchState :=
  foldl (λ st va, (pvp_handler st va).1) matches vas.

End Handlers.

(** The record a callback of [va] leaves behind, before the handler decides
    between waiting and resolving: opponent binding, then the move block. *)
Definition played (va : VerifiedAction) (m : MatchState) : MatchState :=
  recordMove (fid va) (buttonIndex va) (bindOpponent (fid va) m).

(** A run of lobby creations on [/action]: each entry is the pair of clock
    reads and the identity that tapped button 2. *)
Definition create_run (env : Env) (matches : gmap string MatchState)
    (taps : list (Z * Z * Z)) : gmap string MatchState :=
  foldl (λ st '(nowId, nowCreated, f),
           (action_handler env nowId nowCreated st (mkAction f 2 None)).1)
        matches taps.

(** The configuration with no variable set, and a query that carries only
    [matchId]. *)
Definition env0 : Env := mkEnv None None None None.
Definition matchQuery (mid : string) : option (gmap string string) :=
  Some {[ "matchId" := mid ]}.

(** No character of [s] is the separator of a match id. *)
Fixpoint no_dash (s : string) : bool :=
  match s with
  | EmptyString => true
  | String c r => negb (Ascii.eqb c "-") && no_dash r
  end.

(** ** The server as a transition system

    The four [app.post] routes, each behind [verifyFrameAction].  [GET /] and
    [GET /health] do not touch [matches] and are left out of a run. *)

Inductive Post : Type :=
  | PostAction (nowId nowCreated : Z) (req : Request)
  | PostBot (k : nat) (req : Request)
  | PostPvp (req : Request)
  | PostConnect (req : Request).

Definition route (env : Env) (validate : string → NeynarReply)
    (params : string → option (gmap string string))
    (matches : gmap string MatchState) (p : Post)
    : gmap string MatchState * Response :=
  match p with
  | PostAction nowId nowCreated req =>
      post_action env validate params nowId nowCreated matches req
  | PostBot k req => post_bot env validate params k matches req
  | PostPvp req => post_pvp env validate params matches req
  | PostConnect req => post_connect env validate params matches req
  end.

(** The request a route is called with. *)
Definition requestOf (p : Post) : Request :=
  match p with
  | PostAction _ _ req | PostBot _ req | PostPvp req | PostConnect req => req
  end.

(** The store after a sequence of requests. *)
Definition serve (env : Env) (validate : string → NeynarReply)
    (params : string → option (gmap string string))
    (matches : gmap string MatchState) (ps : list Post)
    : gmap string MatchState :=
  foldl (λ st p, (route env validate params st p).1) matches ps.

(** What the handlers keep true of a record stored under key [k]. *)
Definition record_ok (k : string) (m : MatchState) : Prop :=
  id m = k
  ∧ mode m = pvp
  ∧ (∃ t, k = newMatchId t (playerA m))
  ∧ mustWait m = true
  ∧ playerB m ≠ Some (playerA m)
  ∧ (is_Some (moveB m) → is_Some (playerB m)).

(** * Properties *)

(** ** The move resolver *)

Lemma decideWinner_range a b : decideWinner a b ∈ [0; 1; 2].
Proof. destruct a, b; vm_compute; set_solver. Qed.

(** C4: [decideWinner] is a total function of two moves; equal moves draw
    (result 0, and 0 only for equal moves); the first move wins (result 1)
    exactly when the swapped call reports that the second wins (result 2);
    and the wins follow the cycle rock beats scissors, scissors beats paper,
    paper beats rock. *)
Theorem decideWinner_cyclic_antisymmetric (a b : Move) :
  decideWinner a a = 0
  ∧ (decideWinner a b = 0 ↔ a = b)
  ∧ (decideWinner a b = 1 ↔ decideWinner b a = 2)
  ∧ (decideWinner a b = 1 ↔
       (a = rock ∧ b = scissors) ∨ (a = scissors ∧ b = paper) ∨ (a = paper ∧ b = rock))
  ∧ decideWinner rock scissors = 1
  ∧ decideWinner scissors paper = 1
  ∧ decideWinner paper rock = 1.
Proof.
  repeat split; try reflexivity;
    destruct a, b; vm_compute; try congruence; try tauto;
    try (intros [[? ?]|[[? ?]|[? ?]]]; congruence).
Qed.

(** ** The Home fallback of [/action] *)

(** C7: a verified action on [/action] whose button index is outside 1..4 is
    answered with the Home screen of [GET /] (same descriptor, hence the same
    document), with the success status, and the match store is unchanged. *)
Theorem action_fallback_home (env : Env) (nowId nowCreated : Z)
    (matches : gmap string MatchState) (va : VerifiedAction) :
  buttonIndex va < 1 ∨ 4 < buttonIndex va →
  let out := action_handler env nowId nowCreated matches va in
  out.1 = matches
  ∧ out.2 = get_root env
  ∧ body out.2 = body (get_root env)
  ∧ status out.2 = 200
  ∧ title (screen out.2) = "Rock Paper Scissors"
  ∧ length (buttons (screen out.2)) = 4%nat
  ∧ postUrl (screen out.2) = publicUrl env "/action".
Proof.
  intros Hout. unfold action_handler.
  assert ((buttonIndex va =? 1) = false) as -> by lia.
  assert ((buttonIndex va =? 2) = false) as -> by lia.
  assert ((buttonIndex va =? 3) = false) as -> by lia.
  assert ((buttonIndex va =? 4) = false) as -> by lia.
  repeat split.
Qed.

Lemma action_fallback_home_witness :
  (action_handler env0 1000 1000 ∅ (mkAction 100 7 None)).1 = ∅
  ∧ status (action_handler env0 1000 1000 ∅ (mkAction 100 7 None)).2 = 200.
Proof.
  pose proof (action_fallback_home env0 1000 1000 ∅ (mkAction 100 7 None)) as H.
  simpl in H. destruct H as (H1 & _ & _ & H2 & _); [right; lia|].
  split; [exact H1 | exact H2].
Defined.

(** ** Verification failures *)

Section Middleware.

Variables (env : Env) (validate : string → NeynarReply)
          (params : string → option (gmap string string)).

Lemma verify_missing (req : Request) :
  messageBytes req = None →
  verifyFrameAction env validate params req = inl (unauthorized env "Missing messageBytes").
Proof. intros H. unfold verifyFrameAction. by rewrite H. Qed.

(** Whatever the middleware rejects, it rejects with status 401 and a
    single Back button. *)
Lemma verify_rejects (req : Request) (r : Response) :
  verifyFrameAction env validate params req = inl r →
  status r = 401 ∧ buttons (screen r) = [btn "Back"]
  ∧ postUrl (screen r) = publicUrl env "/".
Proof.
  unfold verifyFrameAction. intros H.
  repeat case_match; simplify_eq; done.
Qed.

End Middleware.

(** C9: a POST callback without [trustedData.messageBytes] is rejected by the
    middleware before any handler runs, on each of the four routes: the
    answer has status 401, a single Back button, and the store is returned
    as it was. *)
Theorem missing_blob_unauthorized (env : Env) (validate : string → NeynarReply)
    (params : string → option (gmap string string))
    (nowId nowCreated : Z) (k : nat)
    (matches : gmap string MatchState) (req : Request) :
  messageBytes req = None →
  let r := unauthorized env "Missing messageBytes" in
  post_action env validate params nowId nowCreated matches req = (matches, r)
  ∧ post_bot env validate params k matches req = (matches, r)
  ∧ post_pvp env validate params matches req = (matches, r)
  ∧ post_connect env validate params matches req = (matches, r)
  ∧ status r = 401
  ∧ buttons (screen r) = [btn "Back"]
  ∧ title (screen r) = "Missing messageBytes".
Proof.
  intros H r.
  unfold post_action, post_bot, post_pvp, post_connect.
  rewrite (verify_missing env validate params req H).
  repeat split.
Qed.

Lemma missing_blob_unauthorized_witness :
  post_pvp env0 (λ _, Throws) (λ _, None)
    {[ "1000-100" := mkMatch "1000-100" pvp 100 None None None 1000 ]}
    (mkRequest None)
  = ({[ "1000-100" := mkMatch "1000-100" pvp 100 None None None 1000 ]},
     unauthorized env0 "Missing messageBytes").
Proof.
  apply (missing_blob_unauthorized env0 (λ _, Throws) (λ _, None) 0 0 0%nat
           {[ "1000-100" := mkMatch "1000-100" pvp 100 None None None 1000 ]}
           (mkRequest None)).
  reflexivity.
Defined.

(** ** Match ids *)

Lemma string_app_cons (c : ascii) (s t : string) :
  String c s +:+ t = String c (s +:+ t).
Proof. reflexivity. Qed.

Lemma string_app_nil_l (t : string) : EmptyString +:+ t = t.
Proof. reflexivity. Qed.

Lemma string_app_nil_r (s : string) : s +:+ EmptyString = s.
Proof.
  induction s as [|c s IH]; [done|].
  by rewrite string_app_cons, IH.
Qed.

Lemma string_app_assoc (a b c : string) : (a +:+ b) +:+ c = a +:+ (b +:+ c).
Proof.
  induction a as [|x a IH]; [done|].
  by rewrite !string_app_cons, IH.
Qed.

Lemma no_dash_app (a b : string) :
  no_dash (a +:+ b) = no_dash a && no_dash b.
Proof.
  induction a as [|x a IH]; [done|].
  rewrite string_app_cons. simpl. by rewrite IH, andb_assoc.
Qed.

Lemma pretty_N_char_no_dash (x : N) : Ascii.eqb (pretty_N_char x) "-" = false.
Proof. unfold pretty_N_char. by repeat case_match. Qed.

(** The digits [pretty_N_go] puts in front of its accumulator. *)
Lemma pretty_N_go_digits (x : N) (s : string) :
  ∃ ds, no_dash ds = true ∧ pretty_N_go x s = ds +:+ s
        ∧ ((0 < x)%N → ds ≠ EmptyString).
Proof.
  revert s. induction (N.lt_wf_0 x) as [x _ IH]; intros s.
  destruct (decide (x = 0%N)) as [->|Hx].
  - exists EmptyString. rewrite pretty_N_go_0. repeat split; lia.
  - assert (0 < x)%N as Hpos by lia.
    rewrite pretty_N_go_step by done.
    destruct (IH (x `div` 10)%N (N.div_lt x 10 Hpos eq_refl)
                 (String (pretty_N_char (x `mod` 10)) s))
      as (ds & Hds & -> & _).
    exists (ds +:+ String (pretty_N_char (x `mod` 10)) EmptyString).
    split; [|split].
    + rewrite no_dash_app, Hds. simpl. by rewrite pretty_N_char_no_dash.
    + by rewrite string_app_assoc.
    + intros _. by destruct ds.
Qed.

Lemma pretty_N_shape (n : N) :
  no_dash (pretty n) = true ∧ pretty n ≠ EmptyString.
Proof.
  unfold pretty, pretty_N. case_decide; [done|].
  destruct (pretty_N_go_digits n EmptyString) as (ds & Hds & -> & Hne).
  rewrite string_app_nil_r. split; [done | apply Hne; lia].
Qed.

Lemma pretty_Z_nonneg_shape (t : Z) :
  0 ≤ t → no_dash (pretty t) = true ∧ pretty t ≠ EmptyString.
Proof.
  destruct t as [|p|p]; intros Ht; [done | | lia].
  apply (pretty_N_shape (N.pos p)).
Qed.

(** Two strings cut at their first separator agree part by part. *)
Lemma split_at_dash (a c b d : string) :
  no_dash a = true → no_dash c = true →
  a +:+ "-" +:+ b = c +:+ "-" +:+ d → a = c ∧ b = d.
Proof.
  revert c. induction a as [|x a IH]; intros [|y c] Ha Hc Heq;
    rewrite ?string_app_cons, ?string_app_nil_l in Heq; simpl in Ha, Hc.
  - by simplify_eq.
  - injection Heq as <- _. done.
  - injection Heq as -> _. done.
  - apply andb_true_iff in Ha as [_ Ha]. apply andb_true_iff in Hc as [_ Hc].
    injection Heq as -> Heq. destruct (IH c Ha Hc Heq) as [-> ->]. done.
Qed.

Lemma newMatchId_nonempty (t f : Z) : newMatchId t f ≠ EmptyString.
Proof.
  unfold newMatchId. by destruct (pretty t).
Qed.

(** The id of a lobby determines the clock read and the identity it was
    made of. *)
Lemma newMatchId_inj (t1 f1 t2 f2 : Z) :
  newMatchId t1 f1 = newMatchId t2 f2 → t1 = t2 ∧ f1 = f2.
Proof.
  unfold newMatchId. intros Heq.
  assert (∀ a b, 0 ≤ a → 0 ≤ b →
            pretty a +:+ "-" +:+ pretty f1 = pretty b +:+ "-" +:+ pretty f2 →
            a = b ∧ f1 = f2) as Hnn.
  { intros a b Ha Hb H.
    destruct (pretty_Z_nonneg_shape a Ha) as [Hda _].
    destruct (pretty_Z_nonneg_shape b Hb) as [Hdb _].
    destruct (split_at_dash _ _ _ _ Hda Hdb H) as [H1 H2].
    split; by apply (inj pretty). }
  assert (∀ a p, 0 ≤ a →
            pretty a +:+ "-" +:+ pretty f1 ≠ pretty (Z.neg p) +:+ "-" +:+ pretty f2
            ∧ pretty a +:+ "-" +:+ pretty f2 ≠ pretty (Z.neg p) +:+ "-" +:+ pretty f1)
    as Hmix.
  { intros a p Ha.
    destruct (pretty_Z_nonneg_shape a Ha) as [Hda Hne].
    destruct (pretty a) as [|c r]; [done|]. simpl in Hda.
    apply andb_true_iff in Hda as [Hc _].
    split; intros H; change (pretty (Z.neg p)) with ("-" +:+ pretty p) in H;
      rewrite !string_app_cons in H; injection H as -> _; done. }
  destruct t1 as [|p1|p1], t2 as [|p2|p2];
    try (by apply Hnn; [lia | lia | done]).
  - destruct (Hmix 0 p2) as [H _]; [lia | by destruct (H Heq)].
  - destruct (Hmix (Z.pos p1) p2) as [H _]; [lia | by destruct (H Heq)].
  - destruct (Hmix 0 p1) as [_ H]; [lia | by destruct (H (eq_sym Heq))].
  - destruct (Hmix (Z.pos p2) p1) as [_ H]; [lia | by destruct (H (eq_sym Heq))].
  - change (pretty (Z.neg p1)) with ("-" +:+ pretty (Z.pos p1)) in Heq.
    change (pretty (Z.neg p2)) with ("-" +:+ pretty (Z.pos p2)) in Heq.
    rewrite !string_app_cons, !string_app_nil_l in Heq. injection Heq as Heq.
    destruct (Hnn (Z.pos p1) (Z.pos p2)) as [H1 H2]; [lia | lia | done |].
    split; [congruence | done].
Qed.

(** ** The [/pvp] handler, branch by branch *)

Section PvP.

Variable env : Env.

Lemma mustWait_false (m : MatchState) :
  mustWait m = false →
  ∃ pb a b, playerB m = Some pb ∧ pb ≠ 0 ∧ moveA m = Some a ∧ moveB m = Some b.
Proof.
  unfold mustWait, jsNotNum, jsNotMove.
  destruct (playerB m) as [pb|], (moveA m) as [a|], (moveB m) as [b|];
    rewrite ?orb_true_r, ?orb_false_r; try done.
  intros H. exists pb, a, b. repeat split; lia.
Qed.

Lemma pvp_handler_not_found (matches : gmap string MatchState) (va : VerifiedAction) :
  (∀ mid, queryMatchId va = Some mid → mid = EmptyString ∨ matches !! mid = None) →
  pvp_handler env matches va = (matches, send (notFoundFrame env)).
Proof.
  intros H. unfold pvp_handler.
  destruct (queryMatchId va) as [mid|]; [|done].
  destruct (H mid eq_refl) as [->|Hnone]; [done|].
  rewrite Hnone. by case_match.
Qed.

Lemma pvp_handler_waits (matches : gmap string MatchState) (va : VerifiedAction)
    (mid : string) (m : MatchState) :
  queryMatchId va = Some mid → mid ≠ EmptyString → matches !! mid = Some m →
  mustWait (played va m) = true →
  pvp_handler env matches va
  = (<[mid := played va m]> matches, send (waitingFrame env mid (played va m))).
Proof.
  intros Hq Hne Hm Hw. unfold pvp_handler. rewrite Hq, Hm.
  unfold jsNotStr. rewrite bool_decide_eq_false_2 by done.
  fold (played va m). rewrite Hw. by repeat case_match.
Qed.

Lemma pvp_handler_resolves (matches : gmap string MatchState) (va : VerifiedAction)
    (mid : string) (m : MatchState) (pb : Z) (a b : Move) :
  queryMatchId va = Some mid → mid ≠ EmptyString → matches !! mid = Some m →
  playerB (played va m) = Some pb → pb ≠ 0 →
  moveA (played va m) = Some a → moveB (played va m) = Some b →
  pvp_handler env matches va
  = (delete mid matches,
     send (resultFrame env (resultTitle (playerA (played va m)) pb a b))).
Proof.
  intros Hq Hne Hm Hpb Hnz Ha Hb. unfold pvp_handler. rewrite Hq, Hm.
  unfold jsNotStr. rewrite bool_decide_eq_false_2 by done.
  fold (played va m). rewrite Hpb, Ha, Hb.
  unfold mustWait. rewrite Hpb, Ha, Hb. simpl.
  assert ((pb =? 0) = false) as -> by lia. done.
Qed.

(** A callback never adds a key to the store. *)
Lemma pvp_handler_keeps_absent (matches : gmap string MatchState)
    (va : VerifiedAction) (k : string) :
  matches !! k = None → (pvp_handler env matches va).1 !! k = None.
Proof.
  intros Hk. unfold pvp_handler.
  destruct (queryMatchId va) as [mid|]; [|done].
  destruct (jsNotStr (Some mid)); [done|].
  destruct (matches !! mid) as [m|] eqn:Hm; [|done].
  assert (mid ≠ k) by congruence.
  repeat case_match; simpl;
    rewrite ?lookup_insert_ne, ?lookup_delete_ne by done; done.
Qed.

Lemma pvp_run_keeps_absent (matches : gmap string MatchState)
    (vas : list VerifiedAction) (k : string) :
  matches !! k = None → pvp_run env matches vas !! k = None.
Proof.
  revert matches. induction vas as [|va vas IH]; intros matches Hk; [done|].
  apply IH. by apply pvp_handler_keeps_absent.
Qed.

(** A callback leaves the records under other keys alone. *)
Lemma pvp_handler_other (matches : gmap string MatchState)
    (va : VerifiedAction) (k : string) :
  queryMatchId va ≠ Some k → (pvp_handler env matches va).1 !! k = matches !! k.
Proof.
  intros Hk. unfold pvp_handler.
  destruct (queryMatchId va) as [mid|]; [|done].
  destruct (jsNotStr (Some mid)); [done|].
  destruct (matches !! mid) as [m|] eqn:Hm; [|done].
  assert (mid ≠ k) by congruence.
  repeat case_match; simpl;
    rewrite ?lookup_insert_ne, ?lookup_delete_ne by done; done.
Qed.

End PvP.

(** ** What one callback does to the record it names *)

Lemma moveMap_in_range (b : Z) : 1 ≤ b ≤ 3 → ∃ mv, moveMap b = Some mv.
Proof.
  intros Hb. assert (b = 1 ∨ b = 2 ∨ b = 3) as [-> | [-> | ->]] by lia; by eexists.
Qed.

Lemma played_playerA (va : VerifiedAction) (m : MatchState) :
  playerA (played va m) = playerA m.
Proof.
  unfold played, recordMove, bindOpponent. by repeat case_match.
Qed.

Lemma played_playerB (va : VerifiedAction) (m : MatchState) :
  playerB (played va m)
  = if jsNotNum (playerB m) && negb (fid va =? playerA m)
    then Some (fid va) else playerB m.
Proof.
  unfold played, recordMove, bindOpponent. by repeat case_match.
Qed.

Lemma played_moveA (va : VerifiedAction) (m : MatchState) :
  moveA (played va m)
  = if (1 <=? buttonIndex va) && (buttonIndex va <=? 3) && (fid va =? playerA m)
    then moveMap (buttonIndex va) else moveA m.
Proof.
  unfold played, recordMove, bindOpponent.
  repeat case_match; simpl in *; try done; try lia.
Qed.

Lemma played_moveB (va : VerifiedAction) (m : MatchState) :
  moveB (played va m)
  = if (1 <=? buttonIndex va) && (buttonIndex va <=? 3)
       && strictEqOpt (fid va) (playerB (played va m))
    then moveMap (buttonIndex va) else moveB m.
Proof.
  rewrite played_playerB.
  unfold played, recordMove, bindOpponent.
  destruct (jsNotNum (playerB m) && negb (fid va =? playerA m));
    destruct ((1 <=? buttonIndex va) && (buttonIndex va <=? 3));
    destruct (fid va =? playerA m); simpl;
    repeat case_match; simpl in *; congruence.
Qed.

(** The record found under the key of a callback, after the callback. *)
Lemma pvp_handler_lookup (env : Env) (matches : gmap string MatchState)
    (va : VerifiedAction) (mid : string) (m : MatchState) :
  queryMatchId va = Some mid → mid ≠ EmptyString → matches !! mid = Some m →
  (pvp_handler env matches va).1 !! mid
  = if mustWait (played va m) then Some (played va m) else None.
Proof.
  intros Hq Hne Hm. destruct (mustWait (played va m)) eqn:Hw.
  - rewrite (pvp_handler_waits env matches va mid m) by done.
    apply lookup_insert_eq.
  - destruct (mustWait_false _ Hw) as (pb & a & b & Hpb & Hnz & Ha & Hb).
    rewrite (pvp_handler_resolves env matches va mid m pb a b) by done.
    apply lookup_delete_eq.
Qed.

(** ** Recorded moves *)

(** C1 (as the code has it): a move field is not write-once.  While the match
    is stored, a tap with a button index in 1..3 by the initiator stores the
    move of that index in [moveA], and one by the opponent (as bound after
    this tap) stores it in [moveB], whatever was recorded before; the field
    of a role the caller does not hold, and both fields when the index is
    outside 1..3, are left as they were. *)
Theorem pvp_move_last_write_wins (env : Env) (matches : gmap string MatchState)
    (va : VerifiedAction) (mid : string) (m m' : MatchState) :
  queryMatchId va = Some mid → mid ≠ EmptyString → matches !! mid = Some m →
  (pvp_handler env matches va).1 !! mid = Some m' →
  (1 ≤ buttonIndex va ≤ 3 →
     (∃ mv, moveMap (buttonIndex va) = Some mv)
     ∧ (fid va = playerA m → moveA m' = moveMap (buttonIndex va))
     ∧ (playerB m' = Some (fid va) → moveB m' = moveMap (buttonIndex va))
     ∧ (fid va ≠ playerA m → moveA m' = moveA m)
     ∧ (playerB m' ≠ Some (fid va) → moveB m' = moveB m))
  ∧ (buttonIndex va < 1 ∨ 3 < buttonIndex va →
     moveA m' = moveA m ∧ moveB m' = moveB m).
Proof.
  intros Hq Hne Hm Hm'.
  rewrite (pvp_handler_lookup env matches va mid m) in Hm' by done.
  destruct (mustWait (played va m)); [|done].
  injection Hm' as <-.
  rewrite played_moveB, played_moveA.
  split.
  - intros Hb.
    assert ((1 <=? buttonIndex va) && (buttonIndex va <=? 3) = true) as -> by lia.
    simpl. split; [by apply moveMap_in_range|].
    repeat split.
    + intros ->. by rewrite Z.eqb_refl.
    + intros ->. simpl. by rewrite Z.eqb_refl.
    + intros Hf. by assert ((fid va =? playerA m) = false) as -> by lia.
    + intros Hf. destruct (playerB (played va m)) as [pb|]; simpl; [|done].
      assert ((fid va =? pb) = false) as ->; [|done].
      apply Z.eqb_neq. congruence.
  - intros Hb.
    assert ((1 <=? buttonIndex va) && (buttonIndex va <=? 3) = false) as -> by lia.
    done.
Qed.

Lemma pvp_move_last_write_wins_witness :
  moveA <$> ((pvp_handler env0
      {[ "1000-100" := mkMatch "1000-100" pvp 100 None (Some rock) None 1000 ]}
      (mkAction 100 3 (matchQuery "1000-100"))).1 !! "1000-100")
  = Some (Some scissors).
Proof.
  destruct (pvp_move_last_write_wins env0
      {[ "1000-100" := mkMatch "1000-100" pvp 100 None (Some rock) None 1000 ]}
      (mkAction 100 3 (matchQuery "1000-100")) "1000-100"
      (mkMatch "1000-100" pvp 100 None (Some rock) None 1000)
      (mkMatch "1000-100" pvp 100 None (Some scissors) None 1000))
    as [H _]; [reflexivity | discriminate | reflexivity | reflexivity |].
  reflexivity.
Defined.

(** C1 (counterexample): the initiator 100 has [rock] recorded; their next
    tap, on button 2, replaces it by [paper]. *)
Lemma pvp_move_overwritten :
  let st0 := (action_handler env0 1000 1000 ∅ (mkAction 100 2 None)).1 in
  let st1 := (pvp_handler env0 st0 (mkAction 100 1 (matchQuery "1000-100"))).1 in
  let st2 := (pvp_handler env0 st1 (mkAction 100 2 (matchQuery "1000-100"))).1 in
  moveA <$> st1 !! "1000-100" = Some (Some rock)
  ∧ moveA <$> st2 !! "1000-100" = Some (Some paper).
Proof. split; reflexivity. Qed.

(** ** Resolution *)

Lemma pvp_handler_gone (env : Env) (matches : gmap string MatchState)
    (vas : list VerifiedAction) (va : VerifiedAction) (mid : string) :
  matches !! mid = None → queryMatchId va = Some mid →
  pvp_handler env (pvp_run env matches vas) va
  = (pvp_run env matches vas, send (notFoundFrame env)).
Proof.
  intros Hnone Hq. apply pvp_handler_not_found.
  intros k Hk. right. rewrite Hq in Hk. injection Hk as <-.
  by apply pvp_run_keeps_absent.
Qed.

(** Resolution with an opponent of non-zero identity: when a callback on
    [/pvp] leaves the record with such an opponent and both moves, the
    handler answers with the result screen and the store it leaves is the
    old one without the match id.  From then on, after any further callbacks
    on [/pvp], the id is still absent and a callback that names it gets the
    match-not-found screen and changes nothing: the record cannot be
    resolved again. *)
Theorem pvp_resolution_removes_record (env : Env) (matches : gmap string MatchState)
    (va : VerifiedAction) (mid : string) (m : MatchState) (pb : Z) (a b : Move) :
  queryMatchId va = Some mid → mid ≠ EmptyString → matches !! mid = Some m →
  playerB (played va m) = Some pb → pb ≠ 0 →
  moveA (played va m) = Some a → moveB (played va m) = Some b →
  let out := pvp_handler env matches va in
  out.1 = delete mid matches
  ∧ out.1 !! mid = None
  ∧ out.2 = send (resultFrame env (resultTitle (playerA m) pb a b))
  ∧ ∀ (vas : list VerifiedAction) (va' : VerifiedAction),
      queryMatchId va' = Some mid →
      pvp_run env out.1 vas !! mid = None
      ∧ pvp_handler env (pvp_run env out.1 vas) va'
        = (pvp_run env out.1 vas, send (notFoundFrame env))
      ∧ title (screen (pvp_handler env (pvp_run env out.1 vas) va').2)
        = "PvP Match Not Found".
Proof.
  intros Hq Hne Hm Hpb Hnz Ha Hb out. subst out.
  rewrite (pvp_handler_resolves env matches va mid m pb a b) by done.
  rewrite played_playerA. simpl.
  assert (delete mid matches !! mid = None) as Hgone by apply lookup_delete_eq.
  split; [done|]. split; [done|]. split; [done|].
  intros vas va' Hq'. split; [|split].
  - by apply pvp_run_keeps_absent.
  - by apply (pvp_handler_gone env _ vas va' mid).
  - by rewrite (pvp_handler_gone env _ vas va' mid).
Qed.

Lemma pvp_resolution_removes_record_witness :
  (pvp_handler env0
     {[ "1000-100" := mkMatch "1000-100" pvp 100 (Some 200) None (Some rock) 1000 ]}
     (mkAction 100 2 (matchQuery "1000-100"))).1 !! "1000-100" = None.
Proof.
  destruct (pvp_resolution_removes_record env0
     {[ "1000-100" := mkMatch "1000-100" pvp 100 (Some 200) None (Some rock) 1000 ]}
     (mkAction 100 2 (matchQuery "1000-100")) "1000-100"
     (mkMatch "1000-100" pvp 100 (Some 200) None (Some rock) 1000)
     200 paper rock)
    as (_ & H & _);
    [reflexivity | discriminate | reflexivity | reflexivity | lia
    | reflexivity | reflexivity |].
  exact H.
Defined.

(** C3: with identity 0 as opponent the match is never resolved.  After 100
    creates a lobby and identity 0 taps rock, the tap of 100 on paper leaves
    both moves present; the guard [!match.playerB] still holds for the
    number 0, so the answer is a waiting screen and the record stays in the
    store, also when the tap is sent again. *)
Theorem pvp_zero_opponent_never_resolves :
  let st0 := (action_handler env0 1000 1000 ∅ (mkAction 100 2 None)).1 in
  let st1 := (pvp_handler env0 st0 (mkAction 0 1 (matchQuery "1000-100"))).1 in
  let out := pvp_handler env0 st1 (mkAction 100 2 (matchQuery "1000-100")) in
  let again := pvp_handler env0 out.1 (mkAction 100 2 (matchQuery "1000-100")) in
  out.1 !! "1000-100"
  = Some (mkMatch "1000-100" pvp 100 (Some 0) (Some paper) (Some rock) 1000)
  ∧ title (screen out.2) = "Waiting for opponent"
  ∧ again = out.
Proof. repeat split; reflexivity. Qed.

(** ** The scenario of identities 100 and 200 *)

(** C5: identity 100 taps button 2 on Home: a match is stored under a new id
    and the answer's callback target carries that id.  Identity 200 taps
    button 1 on that target: 200 is bound as opponent, rock is recorded for
    200, and the screen is the one waiting for both moves.  Identity 100 taps
    button 2 on the same target: the match resolves, the title names 100 as
    the winner, and the record is gone.  Any later tap on that id, after any
    further callbacks on [/pvp], gets the match-not-found screen. *)
Theorem pvp_scenario_100_vs_200 (env : Env) (matches : gmap string MatchState)
    (nowId nowCreated : Z) (q0 : option (gmap string string))
    (q q' : gmap string string) :
  let mid := newMatchId nowId 100 in
  let s1 := action_handler env nowId nowCreated matches (mkAction 100 2 q0) in
  let s2 := pvp_handler env s1.1 (mkAction 200 1 (Some (<["matchId" := mid]> q))) in
  let s3 := pvp_handler env s2.1 (mkAction 100 2 (Some (<["matchId" := mid]> q'))) in
  postUrl (screen s1.2) = publicUrl env ("/pvp?matchId=" +:+ mid)
  ∧ s1.1 !! mid = Some (mkMatch mid pvp 100 None None None nowCreated)
  ∧ s2.1 !! mid = Some (mkMatch mid pvp 100 (Some 200) None (Some rock) nowCreated)
  ∧ title (screen s2.2) = "Waiting for both moves"
  ∧ postUrl (screen s2.2) = publicUrl env ("/pvp?matchId=" +:+ mid)
  ∧ title (screen s3.2) = "Player 100 wins!"
  ∧ s3.1 !! mid = None
  ∧ ∀ (vas : list VerifiedAction) (f b : Z) (q4 : gmap string string),
      pvp_handler env (pvp_run env s3.1 vas) (mkAction f b (Some (<["matchId" := mid]> q4)))
      = (pvp_run env s3.1 vas, send (notFoundFrame env))
      ∧ title (notFoundFrame env) = "PvP Match Not Found".
Proof.
  intros mid.
  assert (mid ≠ EmptyString) as Hne by apply newMatchId_nonempty.
  assert (∀ f b q4, queryMatchId (mkAction f b (Some (<["matchId" := mid]> q4))) = Some mid)
    as Hq by (intros; apply lookup_insert_eq).
  unfold action_handler. simpl buttonIndex. simpl fid.
  change (2 =? 1) with false. change (2 =? 2) with true. cbv iota.
  fold mid. clearbody mid. cbv zeta. simpl fst. simpl snd.
  set (m0 := mkMatch mid pvp 100 None None None nowCreated).
  set (m1 := mkMatch mid pvp 100 (Some 200) None (Some rock) nowCreated).
  assert (<[mid := m0]> matches !! mid = Some m0) as H0 by apply lookup_insert_eq.
  rewrite (pvp_handler_waits env _ (mkAction 200 1 _) mid m0 (Hq _ _ _) Hne H0 eq_refl).
  change (played (mkAction 200 1 (Some (<["matchId" := mid]> q))) m0) with m1.
  simpl fst. simpl snd.
  assert (<[mid := m1]> (<[mid := m0]> matches) !! mid = Some m1) as H1
    by apply lookup_insert_eq.
  rewrite (pvp_handler_resolves env _ (mkAction 100 2 _) mid m1 200 paper rock
             (Hq _ _ _) Hne H1 eq_refl ltac:(lia) eq_refl eq_refl).
  simpl fst. simpl snd.
  assert (delete mid (<[mid := m1]> (<[mid := m0]> matches)) !! mid = None) as Hgone
    by apply lookup_delete_eq.
  do 7 (split; [done|]).
  intros vas f b q4. split; [|done].
  by apply (pvp_handler_gone env _ vas _ mid).
Qed.

(** ** Opponent binding *)

Lemma pvp_handler_lookup_inv (env : Env) (matches : gmap string MatchState)
    (va : VerifiedAction) (k : string) (m' : MatchState) :
  (pvp_handler env matches va).1 !! k = Some m' →
  ∃ m, matches !! k = Some m ∧ (m' = m ∨ m' = played va m).
Proof.
  intros H. destruct (decide (queryMatchId va = Some k)) as [Hq|Hq].
  - destruct (decide (k = EmptyString)) as [Hk|Hk].
    { rewrite pvp_handler_not_found in H by (intros ? ?; left; congruence). eauto. }
    destruct (matches !! k) as [m|] eqn:Hm.
    + rewrite (pvp_handler_lookup env matches va k m) in H by done.
      destruct (mustWait (played va m)); [|done]. injection H as <-. eauto.
    + rewrite pvp_handler_keeps_absent in H by done. done.
  - rewrite pvp_handler_other in H by done. eauto.
Qed.

(** The binding step never makes the initiator their own opponent. *)
Lemma played_opponent_not_initiator (va : VerifiedAction) (m : MatchState) :
  playerB m ≠ Some (playerA m) →
  playerB (played va m) ≠ Some (playerA (played va m)).
Proof.
  intros H. rewrite played_playerA, played_playerB.
  destruct (jsNotNum (playerB m)); simpl; [|done].
  destruct (fid va =? playerA m) eqn:E; simpl; [done|].
  intros [= Heq]. lia.
Qed.

(** An opponent the handler sees as bound ([match.playerB] truthy) stays. *)
Lemma played_bound_opponent_kept (va : VerifiedAction) (m : MatchState) :
  jsNotNum (playerB m) = false → playerB (played va m) = playerB m.
Proof. intros H. rewrite played_playerB. by rewrite H. Qed.

(** With a truthy opponent bound, an identity that is neither player changes
    nothing in the record. *)
Lemma played_third_identity (va : VerifiedAction) (m : MatchState) :
  jsNotNum (playerB m) = false →
  fid va ≠ playerA m → playerB m ≠ Some (fid va) →
  played va m = m.
Proof.
  intros Hb Ha Hf. unfold played, bindOpponent. rewrite Hb. simpl.
  unfold recordMove.
  assert ((fid va =? playerA m) = false) as -> by lia.
  assert (strictEqOpt (fid va) (playerB m) = false) as ->.
  { destruct (playerB m) as [pb|]; simpl; [|done].
    apply Z.eqb_neq. congruence. }
  by case_match.
Qed.

(** At the level of the store: such a tap on a match that is still waiting
    returns the store as it was. *)
Lemma pvp_third_identity_store (env : Env) (matches : gmap string MatchState)
    (va : VerifiedAction) (mid : string) (m : MatchState) :
  queryMatchId va = Some mid → mid ≠ EmptyString → matches !! mid = Some m →
  jsNotNum (playerB m) = false →
  fid va ≠ playerA m → playerB m ≠ Some (fid va) →
  mustWait m = true →
  (pvp_handler env matches va).1 = matches.
Proof.
  intros Hq Hne Hm Hb Ha Hf Hw.
  pose proof (played_third_identity va m Hb Ha Hf) as Hsame.
  rewrite (pvp_handler_waits env matches va mid m) by (by rewrite ?Hsame).
  rewrite Hsame. simpl. by apply insert_id.
Qed.

(** Along any run of [/pvp] callbacks no stored record has the initiator as
    opponent, for every identity value, and a truthy opponent is never
    replaced. *)
Lemma pvp_run_opponent_invariant (env : Env) (vas : list VerifiedAction)
    (matches : gmap string MatchState) (k : string) (m' : MatchState) :
  pvp_run env matches vas !! k = Some m' →
  ∃ m, matches !! k = Some m
       ∧ playerA m' = playerA m
       ∧ (playerB m ≠ Some (playerA m) → playerB m' ≠ Some (playerA m'))
       ∧ (jsNotNum (playerB m) = false → playerB m' = playerB m).
Proof.
  revert matches. induction vas as [|va vas IH]; intros matches H.
  - exists m'. by repeat split.
  - simpl in H. apply IH in H as (m1 & H1 & HA & HB & HC).
    apply pvp_handler_lookup_inv in H1 as (m & Hm & [->| ->]).
    + exists m. by repeat split.
    + exists m. rewrite played_playerA in HA. split; [done|]. split; [done|].
      split.
      * intros Hne. by apply HB, played_opponent_not_initiator.
      * intros Hb. rewrite HC; rewrite played_bound_opponent_kept; done.
Qed.

(** C2: the guard [!match.playerB] takes the identity 0 for an empty slot.
    After 100 creates a lobby, identity 0 is bound as opponent by its first
    tap, and the next tap of identity 7 binds the slot again: [playerB] is
    set twice. *)
Theorem pvp_opponent_zero_rebound :
  let st0 := (action_handler env0 1000 1000 ∅ (mkAction 100 2 None)).1 in
  let st1 := (pvp_handler env0 st0 (mkAction 0 4 (matchQuery "1000-100"))).1 in
  let st2 := (pvp_handler env0 st1 (mkAction 7 4 (matchQuery "1000-100"))).1 in
  playerB <$> st0 !! "1000-100" = Some None
  ∧ playerB <$> st1 !! "1000-100" = Some (Some 0)
  ∧ playerB <$> st2 !! "1000-100" = Some (Some 7).
Proof. repeat split; reflexivity. Qed.

(** C10: with identity 0 bound as opponent and its move recorded, a tap on
    button 2 by identity 7, which is neither the initiator nor the opponent,
    takes over the opponent slot and rewrites [moveB]. *)
Theorem pvp_third_identity_takes_zero_slot :
  let st0 := (action_handler env0 1000 1000 ∅ (mkAction 100 2 None)).1 in
  let st1 := (pvp_handler env0 st0 (mkAction 0 1 (matchQuery "1000-100"))).1 in
  let st2 := (pvp_handler env0 st1 (mkAction 7 2 (matchQuery "1000-100"))).1 in
  st1 !! "1000-100" = Some (mkMatch "1000-100" pvp 100 (Some 0) None (Some rock) 1000)
  ∧ st2 !! "1000-100" = Some (mkMatch "1000-100" pvp 100 (Some 7) None (Some paper) 1000).
Proof. split; reflexivity. Qed.

(** ** Waiting screens *)

(** The waiting screen of a record: its callback target carries the match
    id, and its title follows the truthiness of [match.playerB]. *)
Lemma waitingFrame_title (env : Env) (mid : string) (m : MatchState) :
  postUrl (waitingFrame env mid m) = publicUrl env ("/pvp?matchId=" +:+ mid)
  ∧ (playerB m = None → title (waitingFrame env mid m) = "Waiting for opponent")
  ∧ (∀ pb, playerB m = Some pb → pb ≠ 0 →
       title (waitingFrame env mid m) = "Waiting for both moves").
Proof.
  unfold waitingFrame. simpl. split; [done|]. split.
  - by intros ->.
  - intros pb -> Hpb. simpl. by assert ((pb =? 0) = false) as -> by lia.
Qed.

(** C6: identity 0 taps rock on the lobby of 100: it is bound as opponent and
    its move is recorded, [moveA] is still unset, yet the waiting screen is
    titled for a missing opponent, not for missing moves. *)
Theorem pvp_waiting_title_zero_opponent :
  let st0 := (action_handler env0 1000 1000 ∅ (mkAction 100 2 None)).1 in
  let out := pvp_handler env0 st0 (mkAction 0 1 (matchQuery "1000-100")) in
  out.1 !! "1000-100" = Some (mkMatch "1000-100" pvp 100 (Some 0) None (Some rock) 1000)
  ∧ title (screen out.2) = "Waiting for opponent"
  ∧ postUrl (screen out.2) = "http://localhost:3000/pvp?matchId=1000-100".
Proof. repeat split; reflexivity. Qed.

(** ** Lobby creation *)

Lemma action_create (env : Env) (nowId nowCreated : Z)
    (matches : gmap string MatchState) (f : Z) (q : option (gmap string string)) :
  (action_handler env nowId nowCreated matches (mkAction f 2 q)).1
  = <[newMatchId nowId f :=
        mkMatch (newMatchId nowId f) pvp f None None None nowCreated]> matches.
Proof. reflexivity. Qed.

Lemma create_run_snoc (env : Env) (matches : gmap string MatchState)
    (taps : list (Z * Z * Z)) (nowId nowCreated f : Z) :
  create_run env matches (taps ++ [(nowId, nowCreated, f)])
  = <[newMatchId nowId f :=
        mkMatch (newMatchId nowId f) pvp f None None None nowCreated]>
      (create_run env matches taps).
Proof. unfold create_run. by rewrite foldl_app. Qed.

Lemma create_run_cons (env : Env) (matches : gmap string MatchState)
    (taps : list (Z * Z * Z)) (nowId nowCreated f : Z) :
  create_run env matches ((nowId, nowCreated, f) :: taps)
  = create_run env
      (<[newMatchId nowId f :=
           mkMatch (newMatchId nowId f) pvp f None None None nowCreated]> matches)
      taps.
Proof. reflexivity. Qed.

(** Every key of the store after a run of creations was there before or is
    the id of one of the creations. *)
Lemma create_run_keys (env : Env) (taps : list (Z * Z * Z))
    (matches : gmap string MatchState) (k : string) :
  is_Some (create_run env matches taps !! k) →
  is_Some (matches !! k)
  ∨ ∃ t c g, (t, c, g) ∈ taps ∧ k = newMatchId t g.
Proof.
  revert matches. induction taps as [|[[t c] g] taps IH]; intros matches H.
  - by left.
  - rewrite create_run_cons in H.
    apply IH in H as [H|(t' & c' & g' & Hin & ->)].
    + destruct (decide (newMatchId t g = k)) as [<-|Hne].
      * right. exists t, c, g. split; [apply list_elem_of_here | done].
      * rewrite lookup_insert_ne in H by done. by left.
    + right. exists t', c', g'. split; [by apply list_elem_of_further | done].
Qed.

(** C8 (as the code has it): the id of a new lobby is made of the clock read
    and the identity.  It is absent from the store, so the creation adds a
    record and replaces none, whenever the store it started from has no such
    key and no creation of the run was made by the same identity at the same
    clock read. *)
Theorem create_run_fresh_id (env : Env) (matches : gmap string MatchState)
    (taps : list (Z * Z * Z)) (nowId nowCreated f : Z) :
  matches !! newMatchId nowId f = None →
  (∀ t c g, (t, c, g) ∈ taps → (t, g) ≠ (nowId, f)) →
  create_run env matches taps !! newMatchId nowId f = None
  ∧ size (create_run env matches (taps ++ [(nowId, nowCreated, f)]))
    = S (size (create_run env matches taps))
  ∧ ∀ k m, create_run env matches taps !! k = Some m →
           create_run env matches (taps ++ [(nowId, nowCreated, f)]) !! k = Some m.
Proof.
  intros Hstart Hdistinct.
  assert (create_run env matches taps !! newMatchId nowId f = None) as Hfresh.
  { apply eq_None_not_Some. intros H.
    apply create_run_keys in H as [H|(t & c & g & Hin & Heq)].
    - rewrite Hstart in H. by destruct H.
    - apply newMatchId_inj in Heq as [-> ->]. by apply (Hdistinct t c g). }
  split; [done|]. rewrite create_run_snoc. split.
  - by apply map_size_insert_None.
  - intros k m Hk. rewrite lookup_insert_ne; [done|]. congruence.
Qed.

Lemma create_run_fresh_id_witness :
  create_run env0 ∅ [(1000, 1000, 100); (1000, 1000, 200)] !! newMatchId 1001 100 = None.
Proof.
  apply (create_run_fresh_id env0 ∅ [(1000, 1000, 100); (1000, 1000, 200)] 1001 1001 100).
  - reflexivity.
  - intros t c g Hin. apply list_elem_of_In in Hin.
    destruct Hin as [[= <- <- <-]|[[= <- <- <-]|[]]]; intros [=].
Defined.

(** C8 (counterexample): identity 100 creates two lobbies at the same clock
    read.  The id of the second is already a key of the store, and the record
    stored under it is replaced: the store still holds one record. *)
Lemma lobby_id_collision :
  let st1 := create_run env0 ∅ [(1000, 1000, 100)] in
  let st2 := create_run env0 ∅ [(1000, 1000, 100); (1000, 1001, 100)] in
  st1 !! newMatchId 1000 100 = Some (mkMatch "1000-100" pvp 100 None None None 1000)
  ∧ st2 !! newMatchId 1000 100 = Some (mkMatch "1000-100" pvp 100 None None None 1001)
  ∧ size st2 = 1%nat.
Proof. repeat split; reflexivity. Qed.

(** * Further properties of the handlers *)

(** ** The middleware *)

(** The middleware lets a request through exactly when the signed blob is a
    non-empty string, the validator yields a valid validation with an
    action, and the action's URL parses; the verified action then carries the
    validated identity and button index and the URL's query. *)
Theorem verify_accepts_iff (env : Env) (validate : string → NeynarReply)
    (params : string → option (gmap string string))
    (req : Request) (va : VerifiedAction) :
  verifyFrameAction env validate params req = inr va
  ↔ ∃ bytes v a q,
      messageBytes req = Some bytes ∧ bytes ≠ EmptyString
      ∧ validate bytes = Yields (Some v)
      ∧ valid v = true ∧ validated v = Some a
      ∧ params (action_url a) = Some q
      ∧ va = mkAction (interactor_fid a) (tapped_button_index a) (Some q).
Proof.
  unfold verifyFrameAction. split.
  - destruct (messageBytes req) as [bytes|] eqn:Hb; simpl; [|done].
    case_bool_decide as Hne; [done|].
    destruct (validate bytes) as [|[v|]] eqn:Hv; try done.
    destruct (validated v) as [a|] eqn:Ha; [|done].
    destruct (valid v) eqn:Hval; simpl; [|done].
    destruct (params (action_url a)) as [q|] eqn:Hq; [|done].
    intros [= <-]. by exists bytes, v, a, q.
  - intros (bytes & v & a & q & -> & Hne & Hv & Hval & Ha & Hq & ->). simpl.
    rewrite bool_decide_eq_false_2 by done.
    by rewrite Hv, Ha, Hval, Hq.
Qed.

(** Whatever the reason the middleware rejects a request (blob missing or
    empty, validator throwing, invalid signature, unparsable URL), each route
    answers with that rejection and returns the store as it was; the
    rejection has status 401, the single button Back and the root URL as
    callback target. *)
Theorem rejected_request_no_effect (env : Env) (validate : string → NeynarReply)
    (params : string → option (gmap string string))
    (matches : gmap string MatchState) (p : Post) (r : Response) :
  verifyFrameAction env validate params (requestOf p) = inl r →
  route env validate params matches p = (matches, r)
  ∧ status r = 401
  ∧ buttons (screen r) = [btn "Back"]
  ∧ postUrl (screen r) = publicUrl env "/"
  ∧ title (screen r) ∈ ["Missing messageBytes"; "Invalid signature"; "Verification error"].
Proof.
  intros Hrej.
  split.
  { destruct p; simpl in *;
      unfold post_action, post_bot, post_pvp, post_connect; by rewrite Hrej. }
  destruct (verify_rejects env validate params _ r Hrej) as (Hs & Hbt & Hu).
  do 3 (split; [done|]).
  revert Hrej. unfold verifyFrameAction.
  repeat case_match; intros [= <-]; simpl; set_solver.
Qed.

Lemma rejected_request_no_effect_witness :
  route env0 (λ _, Yields None) (λ _, None)
    {[ "1000-100" := mkMatch "1000-100" pvp 100 None None None 1000 ]}
    (PostPvp (mkRequest (Some "0a")))
  = ({[ "1000-100" := mkMatch "1000-100" pvp 100 None None None 1000 ]},
     unauthorized env0 "Invalid signature").
Proof.
  apply (rejected_request_no_effect env0 (λ _, Yields None) (λ _, None)
           {[ "1000-100" := mkMatch "1000-100" pvp 100 None None None 1000 ]}
           (PostPvp (mkRequest (Some "0a")))
           (unauthorized env0 "Invalid signature")).
  reflexivity.
Defined.

(** ** [/action] *)

(** Only button 2 of [/action] touches the store: for every other button
    index the store is returned as it was, the answer has status 200 and
    between one and four buttons, and buttons 1, 3 and 4 lead to the
    callback targets [/bot], [/action] and [/connect]. *)
Theorem action_other_buttons_keep_store (env : Env) (nowId nowCreated : Z)
    (matches : gmap string MatchState) (va : VerifiedAction) :
  buttonIndex va ≠ 2 →
  let out := action_handler env nowId nowCreated matches va in
  out.1 = matches
  ∧ status out.2 = 200
  ∧ (1 ≤ length (buttons (screen out.2)) ≤ 4)%nat
  ∧ (buttonIndex va = 1 → postUrl (screen out.2) = publicUrl env "/bot")
  ∧ (buttonIndex va = 3 → postUrl (screen out.2) = publicUrl env "/action")
  ∧ (buttonIndex va = 4 → postUrl (screen out.2) = publicUrl env "/connect").
Proof.
  intros Hb. unfold action_handler.
  assert ((buttonIndex va =? 2) = false) as -> by lia.
  destruct (buttonIndex va =? 1) eqn:E1; [simpl; repeat split; lia|].
  destruct (buttonIndex va =? 3) eqn:E3; [simpl; repeat split; lia|].
  destruct (buttonIndex va =? 4) eqn:E4; simpl; repeat split; lia.
Qed.

Lemma action_other_buttons_keep_store_witness :
  (action_handler env0 1000 1000
     {[ "999-5" := mkMatch "999-5" pvp 5 None None None 999 ]}
     (mkAction 100 4 None)).1
  = {[ "999-5" := mkMatch "999-5" pvp 5 None None None 999 ]}.
Proof.
  apply (action_other_buttons_keep_store env0 1000 1000
           {[ "999-5" := mkMatch "999-5" pvp 5 None None None 999 ]}
           (mkAction 100 4 None)).
  simpl. lia.
Defined.

(** Button 2 of [/action] stores, under the id made of the clock read and
    the caller's identity, a record with the caller as initiator, no
    opponent and no move; the records under other keys are untouched and the
    answer's callback target names the id.  Whatever button of the lobby
    screen the creator then taps, the creator is not bound as opponent, the
    answer is the waiting-for-opponent screen, and a button index in 1..3 is
    recorded as the creator's move. *)
Theorem action_creates_lobby (env : Env) (nowId nowCreated : Z)
    (matches : gmap string MatchState) (va : VerifiedAction) :
  buttonIndex va = 2 →
  let mid := newMatchId nowId (fid va) in
  let out := action_handler env nowId nowCreated matches va in
  out.1 !! mid = Some (mkMatch mid pvp (fid va) None None None nowCreated)
  ∧ (∀ k, k ≠ mid → out.1 !! k = matches !! k)
  ∧ status out.2 = 200
  ∧ postUrl (screen out.2) = publicUrl env ("/pvp?matchId=" +:+ mid)
  ∧ ∀ (b : Z) (q : gmap string string),
      let next := pvp_handler env out.1
                    (mkAction (fid va) b (Some (<["matchId" := mid]> q))) in
      title (screen next.2) = "Waiting for opponent"
      ∧ next.1 !! mid
        = Some (mkMatch mid pvp (fid va) None
                  (if (1 <=? b) && (b <=? 3) then moveMap b else None)
                  None nowCreated).
Proof.
  intros Hb mid. unfold action_handler.
  assert ((buttonIndex va =? 1) = false) as -> by lia.
  assert ((buttonIndex va =? 2) = true) as -> by lia.
  cbv zeta. fold mid.
  assert (mid ≠ EmptyString) as Hne by apply newMatchId_nonempty.
  clearbody mid. simpl fst. simpl snd.
  set (m0 := mkMatch mid pvp (fid va) None None None nowCreated).
  split; [apply lookup_insert_eq|].
  split; [intros k Hk; by apply lookup_insert_ne|].
  split; [done|]. split; [done|].
  intros b q.
  assert (played (mkAction (fid va) b (Some (<["matchId" := mid]> q))) m0
          = mkMatch mid pvp (fid va) None
              (if (1 <=? b) && (b <=? 3) then moveMap b else None) None nowCreated)
    as Hplayed.
  { unfold played, bindOpponent, recordMove, m0. simpl.
    rewrite Z.eqb_refl. simpl.
    destruct ((1 <=? b) && (b <=? 3)); [|done].
    simpl. by rewrite Z.eqb_refl. }
  rewrite (pvp_handler_waits env _ _ mid m0).
  - rewrite Hplayed. simpl. split; [done|]. apply lookup_insert_eq.
  - apply lookup_insert_eq.
  - done.
  - apply lookup_insert_eq.
  - by rewrite Hplayed.
Qed.

Lemma action_creates_lobby_witness :
  (action_handler env0 1000 1001 ∅ (mkAction 100 2 None)).1 !! "1000-100"
  = Some (mkMatch "1000-100" pvp 100 None None None 1001).
Proof.
  apply (action_creates_lobby env0 1000 1001 ∅ (mkAction 100 2 None)).
  reflexivity.
Defined.

(** Two lobby creations get the same id exactly when they read the same
    clock value and come from the same identity. *)
Theorem lobby_id_determines_creation (t1 f1 t2 f2 : Z) :
  newMatchId t1 f1 = newMatchId t2 f2 ↔ t1 = t2 ∧ f1 = f2.
Proof.
  split.
  - apply newMatchId_inj.
  - by intros [-> ->].
Qed.

(** ** [/pvp] *)

(** The three things a callback on [/pvp] can do to the store. *)
Lemma pvp_handler_step (env : Env) (matches : gmap string MatchState)
    (va : VerifiedAction) :
  pvp_handler env matches va = (matches, send (notFoundFrame env))
  ∨ ∃ mid m, queryMatchId va = Some mid ∧ mid ≠ EmptyString
      ∧ matches !! mid = Some m
      ∧ ((mustWait (played va m) = true
          ∧ pvp_handler env matches va
            = (<[mid := played va m]> matches,
               send (waitingFrame env mid (played va m))))
         ∨ (mustWait (played va m) = false
            ∧ (pvp_handler env matches va).1 = delete mid matches)).
Proof.
  destruct (queryMatchId va) as [mid|] eqn:Hq.
  - destruct (decide (mid = EmptyString)) as [Hk|Hk].
    { left. apply pvp_handler_not_found. intros ? ?. left. congruence. }
    destruct (matches !! mid) as [m|] eqn:Hm.
    + right. exists mid, m. do 3 (split; [done|]).
      destruct (mustWait (played va m)) eqn:Hw.
      * left. split; [done|]. by apply pvp_handler_waits.
      * right. split; [done|].
        destruct (mustWait_false _ Hw) as (pb & a & b & Hpb & Hnz & Ha & Hb).
        by rewrite (pvp_handler_resolves env matches va mid m pb a b).
    + left. apply pvp_handler_not_found. intros ? ?. right. congruence.
  - left. apply pvp_handler_not_found. intros ? ?. congruence.
Qed.

(** A callback whose query is missing, has no [matchId], has an empty
    [matchId], or names an id that is not stored, gets the match-not-found
    screen with status 200 and the single button Home, and the store is
    returned as it was. *)
Theorem pvp_unknown_match (env : Env) (matches : gmap string MatchState)
    (va : VerifiedAction) :
  query va = None
  ∨ (∃ q, query va = Some q ∧ q !! "matchId" = None)
  ∨ queryMatchId va = Some EmptyString
  ∨ (∃ mid, queryMatchId va = Some mid ∧ matches !! mid = None) →
  let out := pvp_handler env matches va in
  out.1 = matches
  ∧ status out.2 = 200
  ∧ title (screen out.2) = "PvP Match Not Found"
  ∧ buttons (screen out.2) = [btn "Home"]
  ∧ postUrl (screen out.2) = publicUrl env "/action".
Proof.
  intros H out. subst out. rewrite pvp_handler_not_found; [done|].
  intros mid Hmid. unfold queryMatchId in *.
  destruct H as [H | [(q & Hq & H) | [H | (k & Hk & H)]]].
  - by rewrite H in Hmid.
  - rewrite Hq in Hmid. simpl in Hmid. congruence.
  - left. congruence.
  - right. congruence.
Qed.

Lemma pvp_unknown_match_witness :
  pvp_handler env0 {[ "1000-100" := mkMatch "1000-100" pvp 100 None None None 1000 ]}
    (mkAction 200 1 (matchQuery "1000-200"))
  = ({[ "1000-100" := mkMatch "1000-100" pvp 100 None None None 1000 ]},
     send (notFoundFrame env0)).
Proof.
  pose proof (pvp_unknown_match env0
    {[ "1000-100" := mkMatch "1000-100" pvp 100 None None None 1000 ]}
    (mkAction 200 1 (matchQuery "1000-200"))) as H.
  simpl in H. destruct H as (H1 & _).
  - right. right. right. exists "1000-200". split; reflexivity.
  - reflexivity.
Defined.

(** A callback on [/pvp] never adds a key: the keys after it are keys before
    it, the store does not grow, and the records under keys other than the
    one the callback names are untouched. *)
Theorem pvp_never_adds_keys (env : Env) (matches : gmap string MatchState)
    (va : VerifiedAction) :
  dom (pvp_handler env matches va).1 ⊆ dom matches
  ∧ (size (pvp_handler env matches va).1 ≤ size matches)%nat
  ∧ ∀ k, queryMatchId va ≠ Some k →
         (pvp_handler env matches va).1 !! k = matches !! k.
Proof.
  assert (dom (pvp_handler env matches va).1 ⊆ dom matches) as Hdom.
  { destruct (pvp_handler_step env matches va)
      as [-> | (mid & m & Hq & Hne & Hm & [[Hw ->] | [Hw ->]])]; simpl.
    - done.
    - rewrite dom_insert_L. apply union_subseteq. split; [|done].
      apply singleton_subseteq_l. by apply elem_of_dom_2 in Hm.
    - rewrite dom_delete_L. by apply subseteq_difference_l. }
  split; [done|]. split.
  - rewrite <- !size_dom. by apply subseteq_size.
  - intros k Hk. by apply pvp_handler_other.
Qed.

(** The fields [id], [mode], [playerA] and [createdAt] of a stored record are
    never written by [/pvp]: after any run of callbacks, a record still
    stored has them as before the run. *)
Theorem pvp_run_keeps_creation_fields (env : Env) (vas : list VerifiedAction)
    (matches : gmap string MatchState) (k : string) (m' : MatchState) :
  pvp_run env matches vas !! k = Some m' →
  ∃ m, matches !! k = Some m
       ∧ id m' = id m ∧ mode m' = mode m
       ∧ playerA m' = playerA m ∧ createdAt m' = createdAt m.
Proof.
  revert matches. induction vas as [|va vas IH]; intros matches H.
  - exists m'. by repeat split.
  - simpl in H. apply IH in H as (m1 & H1 & Hi & Hmo & Ha & Hc).
    apply pvp_handler_lookup_inv in H1 as (m & Hm & [-> | ->]).
    + exists m. by repeat split.
    + exists m. split; [done|]. rewrite Hi, Hmo, Ha, Hc.
      unfold played, recordMove, bindOpponent.
      by repeat case_match.
Qed.

Lemma pvp_run_keeps_creation_fields_witness :
  ∃ m, ({[ "1000-100" := mkMatch "1000-100" pvp 100 None None None 1000 ]}
          : gmap string MatchState) !! "1000-100" = Some m
       ∧ createdAt m = 1000.
Proof.
  destruct (pvp_run_keeps_creation_fields env0
    [mkAction 200 1 (matchQuery "1000-100"); mkAction 100 4 (matchQuery "1000-100")]
    {[ "1000-100" := mkMatch "1000-100" pvp 100 None None None 1000 ]}
    "1000-100" (mkMatch "1000-100" pvp 100 (Some 200) None (Some rock) 1000))
    as (m & Hm & _ & _ & _ & Hc); [reflexivity|].
  exists m. split; [exact Hm|]. simpl in Hc. by rewrite <- Hc.
Defined.

(** While a found match cannot be resolved yet, the answer is a waiting
    screen with status 200, the four buttons Rock, Paper, Scissors and
    Cancel, and a callback target that names the same match id.  Its title
    is the one for a missing opponent when the record, after this tap, has
    no opponent, and the one for missing moves when it has an opponent of
    non-zero identity. *)
Theorem pvp_waiting_screen (env : Env) (matches : gmap string MatchState)
    (va : VerifiedAction) (mid : string) (m : MatchState) :
  queryMatchId va = Some mid → mid ≠ EmptyString → matches !! mid = Some m →
  mustWait (played va m) = true →
  let out := pvp_handler env matches va in
  out.1 !! mid = Some (played va m)
  ∧ status out.2 = 200
  ∧ label <$> buttons (screen out.2) = ["Rock"; "Paper"; "Scissors"; "Cancel"]
  ∧ postUrl (screen out.2) = publicUrl env ("/pvp?matchId=" +:+ mid)
  ∧ (playerB (played va m) = None →
       title (screen out.2) = "Waiting for opponent")
  ∧ (∀ pb, playerB (played va m) = Some pb → pb ≠ 0 →
       title (screen out.2) = "Waiting for both moves"
       ∧ (moveA (played va m) = None ∨ moveB (played va m) = None)).
Proof.
  intros Hq Hne Hm Hw out. subst out.
  rewrite (pvp_handler_waits env matches va mid m) by done. simpl.
  split; [apply lookup_insert_eq|]. do 3 (split; [done|]).
  split.
  - by intros ->.
  - intros pb Hpb Hnz. rewrite Hpb. simpl.
    assert ((pb =? 0) = false) as Hz by lia. rewrite Hz. split; [done|].
    unfold mustWait in Hw. rewrite Hpb in Hw. simpl in Hw. rewrite Hz in Hw.
    destruct (moveA (played va m)); [|by left].
    destruct (moveB (played va m)); [done | by right].
Qed.

Lemma pvp_waiting_screen_witness :
  title (screen (pvp_handler env0
      {[ "1000-100" := mkMatch "1000-100" pvp 100 None None None 1000 ]}
      (mkAction 200 1 (matchQuery "1000-100"))).2)
  = "Waiting for both moves".
Proof.
  destruct (pvp_waiting_screen env0
      {[ "1000-100" := mkMatch "1000-100" pvp 100 None None None 1000 ]}
      (mkAction 200 1 (matchQuery "1000-100")) "1000-100"
      (mkMatch "1000-100" pvp 100 None None None 1000))
    as (_ & _ & _ & _ & _ & H);
    [reflexivity | discriminate | reflexivity | reflexivity |].
  destruct (H 200) as [Ht _]; [reflexivity | lia | exact Ht].
Defined.

(** Joining: on a match without opponent, the tap of an identity that is
    non-zero and not the initiator binds that identity as opponent, whatever
    the button.  From then on, after any run of [/pvp] callbacks by any
    identities, the record, while still stored, has the same opponent. *)
Theorem pvp_first_distinct_identity_joins (env : Env)
    (matches : gmap string MatchState) (va : VerifiedAction)
    (mid : string) (m : MatchState) :
  queryMatchId va = Some mid → mid ≠ EmptyString → matches !! mid = Some m →
  playerB m = None → fid va ≠ playerA m → fid va ≠ 0 →
  playerB (played va m) = Some (fid va)
  ∧ ∀ (vas : list VerifiedAction) (m' : MatchState),
      pvp_run env (pvp_handler env matches va).1 vas !! mid = Some m' →
      playerB m' = Some (fid va) ∧ playerA m' = playerA m.
Proof.
  intros Hq Hne Hm Hb Ha Hz.
  assert (playerB (played va m) = Some (fid va)) as Hjoin.
  { rewrite played_playerB, Hb. simpl.
    by assert ((fid va =? playerA m) = false) as -> by lia. }
  split; [done|]. intros vas m' Hrun.
  apply pvp_run_opponent_invariant in Hrun as (m1 & H1 & HA & _ & HB).
  rewrite (pvp_handler_lookup env matches va mid m) in H1 by done.
  destruct (mustWait (played va m)); [|done]. injection H1 as <-.
  rewrite HA, played_playerA. split; [|done].
  rewrite HB; [done|]. rewrite Hjoin. simpl. lia.
Qed.

Lemma pvp_first_distinct_identity_joins_witness :
  playerB (played (mkAction 200 4 (matchQuery "1000-100"))
             (mkMatch "1000-100" pvp 100 None None None 1000))
  = Some 200.
Proof.
  apply (pvp_first_distinct_identity_joins env0
      {[ "1000-100" := mkMatch "1000-100" pvp 100 None None None 1000 ]}
      (mkAction 200 4 (matchQuery "1000-100")) "1000-100"
      (mkMatch "1000-100" pvp 100 None None None 1000));
    [reflexivity | discriminate | reflexivity | reflexivity | simpl; lia | simpl; lia].
Defined.

(** Spectators: on a stored match that is waiting and has an opponent of
    non-zero identity, a tap by an identity that is neither the initiator
    nor that opponent changes nothing, for every button index: the store is
    returned as it was and the answer is the waiting screen for missing
    moves. *)
Theorem pvp_spectator_no_effect (env : Env) (matches : gmap string MatchState)
    (va : VerifiedAction) (mid : string) (m : MatchState) (pb : Z) :
  queryMatchId va = Some mid → mid ≠ EmptyString → matches !! mid = Some m →
  playerB m = Some pb → pb ≠ 0 → mustWait m = true →
  fid va ≠ playerA m → fid va ≠ pb →
  pvp_handler env matches va = (matches, send (waitingFrame env mid m))
  ∧ title (waitingFrame env mid m) = "Waiting for both moves".
Proof.
  intros Hq Hne Hm Hpb Hnz Hw Ha Hf.
  assert (jsNotNum (playerB m) = false) as Hb by (rewrite Hpb; simpl; lia).
  assert (played va m = m) as Hsame.
  { apply played_third_identity; [done | done |]. rewrite Hpb. congruence. }
  rewrite (pvp_handler_waits env matches va mid m) by (by rewrite ?Hsame).
  rewrite Hsame, insert_id by done. split; [done|].
  unfold waitingFrame. simpl. by rewrite Hb.
Qed.

Lemma pvp_spectator_no_effect_witness :
  (pvp_handler env0
     {[ "1000-100" := mkMatch "1000-100" pvp 100 (Some 200) None (Some rock) 1000 ]}
     (mkAction 300 2 (matchQuery "1000-100"))).1
  = {[ "1000-100" := mkMatch "1000-100" pvp 100 (Some 200) None (Some rock) 1000 ]}.
Proof.
  destruct (pvp_spectator_no_effect env0
     {[ "1000-100" := mkMatch "1000-100" pvp 100 (Some 200) None (Some rock) 1000 ]}
     (mkAction 300 2 (matchQuery "1000-100")) "1000-100"
     (mkMatch "1000-100" pvp 100 (Some 200) None (Some rock) 1000) 200)
    as [H _];
    [reflexivity | discriminate | reflexivity | reflexivity | lia | reflexivity
    | simpl; lia | simpl; lia |].
  by rewrite H.
Defined.

(** ** Outcomes *)

Lemma player_title_not_draw (n : Z) : "Player " +:+ pretty n +:+ " wins!" ≠ "Draw!".
Proof. done. Qed.

Lemma string_length_app (a b : string) :
  String.length (a +:+ b) = (String.length a + String.length b)%nat.
Proof.
  induction a as [|x a IH]; [done|].
  rewrite string_app_cons. simpl. by rewrite IH.
Qed.

Lemma player_title_inj (n k : Z) :
  "Player " +:+ pretty n +:+ " wins!" = "Player " +:+ pretty k +:+ " wins!" → n = k.
Proof.
  intros H. rewrite !string_app_cons, !string_app_nil_l in H.
  injection H as H.
  assert (∀ a b : string, a +:+ " wins!" = b +:+ " wins!" → a = b) as Hcancel.
  { intros a b Hab.
    assert (String.length a = String.length b) as Hlen.
    { apply (f_equal String.length) in Hab.
      rewrite !string_length_app in Hab. lia. }
    revert b Hab Hlen. induction a as [|x a IH]; intros [|y b] Hab Hlen;
      simpl in Hlen; try done.
    rewrite !string_app_cons in Hab. injection Hab as -> Hab.
    f_equal. apply IH; [done | lia]. }
  apply Hcancel in H. by apply (inj pretty).
Qed.

(** The title of a resolved match is "Draw!" exactly for equal moves, and
    otherwise names the player whose move beats the other's under rock beats
    scissors, scissors beats paper, paper beats rock: the initiator for the
    first move, the opponent for the second.  For two different players the
    three titles are pairwise different, so the title determines the
    outcome. *)
Theorem resultTitle_names_winner (pa pb : Z) (a b : Move) :
  (a = b → resultTitle pa pb a b = "Draw!")
  ∧ (decideWinner a b = 1 → resultTitle pa pb a b = "Player " +:+ pretty pa +:+ " wins!")
  ∧ (decideWinner a b = 2 → resultTitle pa pb a b = "Player " +:+ pretty pb +:+ " wins!")
  ∧ (resultTitle pa pb a b = "Draw!" → a = b)
  ∧ (pa ≠ pb →
       (resultTitle pa pb a b = "Player " +:+ pretty pa +:+ " wins!" ↔
          (a = rock ∧ b = scissors) ∨ (a = scissors ∧ b = paper) ∨ (a = paper ∧ b = rock))
       ∧ (resultTitle pa pb a b = "Player " +:+ pretty pb +:+ " wins!" ↔
          (b = rock ∧ a = scissors) ∨ (b = scissors ∧ a = paper) ∨ (b = paper ∧ a = rock))).
Proof.
  assert (∀ n k : Z, n ≠ k →
            "Player " +:+ pretty n +:+ " wins!" ≠ "Player " +:+ pretty k +:+ " wins!")
    as Hdiff by (intros n k Hnk H; by apply player_title_inj in H).
  pose proof (player_title_not_draw pa) as Hda.
  pose proof (player_title_not_draw pb) as Hdb.
  unfold resultTitle.
  split; [intros ->; by destruct b|].
  split; [intros ->; done|].
  split; [intros ->; done|].
  split; [by destruct a, b|].
  intros Hne. pose proof (Hdiff pa pb Hne) as H1. pose proof (Hdiff pb pa) as H2.
  split; split; destruct a, b; simpl; intros H;
    try (left; done); try (right; left; done); try (right; right; done);
    try done; try (by destruct (Hda H)); try (by destruct (Hdb H));
    try (by destruct (H1 H)); try (by destruct H2; [congruence | done]);
    try (by destruct (Hda (eq_sym H))); try (by destruct (Hdb (eq_sym H)));
    try (destruct H as [[? ?] | [[? ?] | [? ?]]]; congruence).
Qed.

Lemma resultTitle_names_winner_witness :
  resultTitle 100 200 scissors rock = "Player 200 wins!".
Proof.
  destruct (resultTitle_names_winner 100 200 scissors rock)
    as (_ & _ & _ & _ & H).
  destruct H as [_ [_ H]]; [lia|].
  rewrite H; [reflexivity|]. left. done.
Defined.

Lemma played_initiator_move (m : MatchState) (pb i : Z) (a : Move)
    (q : option (gmap string string)) :
  playerB m = Some pb → pb ≠ 0 → pb ≠ playerA m →
  1 ≤ i ≤ 3 → moveMap i = Some a →
  played (mkAction (playerA m) i q) m = set_moveA (Some a) m.
Proof.
  intros Hpb Hnz Hne Hi Ha. unfold played, bindOpponent, recordMove. simpl.
  rewrite Hpb. simpl.
  assert ((pb =? 0) = false) as -> by lia. simpl.
  assert ((1 <=? i) && (i <=? 3) = true) as -> by lia.
  rewrite Z.eqb_refl, Ha. simpl. rewrite Hpb. simpl.
  by assert ((playerA m =? pb) = false) as -> by lia.
Qed.

Lemma played_opponent_move (m : MatchState) (pb j : Z) (b : Move)
    (q : option (gmap string string)) :
  playerB m = Some pb → pb ≠ 0 → pb ≠ playerA m →
  1 ≤ j ≤ 3 → moveMap j = Some b →
  played (mkAction pb j q) m = set_moveB (Some b) m.
Proof.
  intros Hpb Hnz Hne Hj Hb. unfold played, bindOpponent, recordMove. simpl.
  rewrite Hpb. simpl.
  assert ((pb =? 0) = false) as -> by lia. simpl.
  assert ((1 <=? j) && (j <=? 3) = true) as -> by lia.
  assert ((pb =? playerA m) = false) as -> by lia.
  rewrite Hpb, Hb. simpl. by rewrite Z.eqb_refl.
Qed.

(** With both players bound and no move recorded, the order in which the two
    players tap their moves does not matter: initiator first or opponent
    first, the first tap gets the waiting screen for missing moves, the
    second resolves the match with the same result screen, and both orders
    leave the same store, without the match. *)
Theorem pvp_move_order_irrelevant (env : Env) (matches : gmap string MatchState)
    (mid : string) (m : MatchState) (pb i j : Z) (qa qb : gmap string string) :
  mid ≠ EmptyString → matches !! mid = Some m →
  playerB m = Some pb → pb ≠ 0 → pb ≠ playerA m →
  moveA m = None → moveB m = None →
  1 ≤ i ≤ 3 → 1 ≤ j ≤ 3 →
  let tapA := mkAction (playerA m) i (Some (<["matchId" := mid]> qa)) in
  let tapB := mkAction pb j (Some (<["matchId" := mid]> qb)) in
  let a1 := pvp_handler env matches tapA in
  let b1 := pvp_handler env matches tapB in
  let ab := pvp_handler env a1.1 tapB in
  let ba := pvp_handler env b1.1 tapA in
  title (screen a1.2) = "Waiting for both moves"
  ∧ title (screen b1.2) = "Waiting for both moves"
  ∧ ab = ba
  ∧ ab.1 = delete mid matches
  ∧ ∃ a b, moveMap i = Some a ∧ moveMap j = Some b
           ∧ ab.2 = send (resultFrame env (resultTitle (playerA m) pb a b)).
Proof.
  intros Hne Hm Hpb Hnz Hab HmA HmB Hi Hj tapA tapB.
  destruct (moveMap_in_range i Hi) as [a Ha].
  destruct (moveMap_in_range j Hj) as [b Hb].
  assert (queryMatchId tapA = Some mid) as HqA by apply lookup_insert_eq.
  assert (queryMatchId tapB = Some mid) as HqB by apply lookup_insert_eq.
  assert ((pb =? 0) = false) as Hz by lia.
  assert (played tapA m = set_moveA (Some a) m) as HpA
    by (by apply (played_initiator_move m pb)).
  assert (played tapB m = set_moveB (Some b) m) as HpB
    by (by apply played_opponent_move).
  assert (played tapB (set_moveA (Some a) m) = set_moveB (Some b) (set_moveA (Some a) m))
    as HpAB by (by apply played_opponent_move).
  assert (played tapA (set_moveB (Some b) m) = set_moveA (Some a) (set_moveB (Some b) m))
    as HpBA by (by apply (played_initiator_move (set_moveB (Some b) m) pb)).
  cbv zeta.
  rewrite (pvp_handler_waits env matches tapA mid m HqA Hne Hm)
    by (rewrite HpA; unfold mustWait; simpl; by rewrite HmB, orb_true_r).
  rewrite (pvp_handler_waits env matches tapB mid m HqB Hne Hm)
    by (rewrite HpB; unfold mustWait; simpl; by rewrite HmA, orb_true_r).
  rewrite HpA, HpB. simpl fst. simpl snd.
  rewrite (pvp_handler_resolves env _ tapB mid (set_moveA (Some a) m) pb a b HqB Hne)
    by (rewrite ?HpAB; try done; apply lookup_insert_eq).
  rewrite (pvp_handler_resolves env _ tapA mid (set_moveB (Some b) m) pb a b HqA Hne)
    by (rewrite ?HpBA; try done; apply lookup_insert_eq).
  rewrite HpAB, HpBA, !delete_insert_eq. simpl. rewrite Hpb. simpl. rewrite Hz.
  do 4 (split; [done|]). by exists a, b.
Qed.

Lemma pvp_move_order_irrelevant_witness :
  pvp_handler env0
    (pvp_handler env0
       {[ "1000-100" := mkMatch "1000-100" pvp 100 (Some 200) None None 1000 ]}
       (mkAction 100 2 (Some (<["matchId" := "1000-100"]> ∅)))).1
    (mkAction 200 1 (Some (<["matchId" := "1000-100"]> ∅)))
  = pvp_handler env0
    (pvp_handler env0
       {[ "1000-100" := mkMatch "1000-100" pvp 100 (Some 200) None None 1000 ]}
       (mkAction 200 1 (Some (<["matchId" := "1000-100"]> ∅)))).1
    (mkAction 100 2 (Some (<["matchId" := "1000-100"]> ∅))).
Proof.
  destruct (pvp_move_order_irrelevant env0
      {[ "1000-100" := mkMatch "1000-100" pvp 100 (Some 200) None None 1000 ]}
      "1000-100" (mkMatch "1000-100" pvp 100 (Some 200) None None 1000)
      200 2 1 ∅ ∅)
    as (_ & _ & H & _);
    [discriminate | reflexivity | reflexivity | lia | simpl; lia
    | reflexivity | reflexivity | lia | lia |].
  exact H.
Defined.

(** ** Runs of the server *)

Section Server.

Variables (env : Env) (validate : string → NeynarReply)
          (params : string → option (gmap string string)).

Lemma action_handler_keeps_store (nowId nowCreated : Z)
    (matches : gmap string MatchState) (va : VerifiedAction) :
  buttonIndex va ≠ 2 →
  (action_handler env nowId nowCreated matches va).1 = matches.
Proof.
  intros Hb. unfold action_handler.
  assert ((buttonIndex va =? 2) = false) as -> by lia.
  by repeat case_match.
Qed.

(** What one request can do to the store: nothing, add a fresh lobby record,
    rewrite the record it names, or remove it. *)
Lemma route_step (matches : gmap string MatchState) (p : Post) :
  (route env validate params matches p).1 = matches
  ∨ (∃ t c req va, p = PostAction t c req
       ∧ verifyFrameAction env validate params req = inr va
       ∧ buttonIndex va = 2
       ∧ (route env validate params matches p).1
         = <[newMatchId t (fid va) :=
               mkMatch (newMatchId t (fid va)) pvp (fid va) None None None c]> matches)
  ∨ (∃ va mid m, mid ≠ EmptyString ∧ matches !! mid = Some m
       ∧ ((mustWait (played va m) = true
           ∧ (route env validate params matches p).1 = <[mid := played va m]> matches)
          ∨ (route env validate params matches p).1 = delete mid matches)).
Proof.
  destruct p as [t c req | k req | req | req]; simpl;
    unfold post_action, post_bot, post_pvp, post_connect;
    destruct (verifyFrameAction env validate params req) as [r|va] eqn:Hv;
    try (by left).
  - destruct (decide (buttonIndex va = 2)) as [Hb|Hb].
    + right. left. exists t, c, req, va. do 3 (split; [done|]).
      unfold action_handler.
      assert ((buttonIndex va =? 1) = false) as -> by lia.
      by assert ((buttonIndex va =? 2) = true) as -> by lia.
    + left. by apply action_handler_keeps_store.
  - destruct (pvp_handler_step env matches va)
      as [-> | (mid & m & Hq & Hne & Hm & [[Hw ->] | [Hw ->]])].
    + by left.
    + right. right. exists va, mid, m. do 2 (split; [done|]). by left.
    + right. right. exists va, mid, m. do 2 (split; [done|]). by right.
Qed.

Lemma played_record_ok (va : VerifiedAction) (k : string) (m : MatchState) :
  record_ok k m → mustWait (played va m) = true → record_ok k (played va m).
Proof.
  intros (Hi & Hmo & Ht & _ & Hab & Hmb) Hw.
  assert (id (played va m) = id m ∧ mode (played va m) = mode m) as [Hid Hmode].
  { unfold played, recordMove, bindOpponent. by repeat case_match. }
  unfold record_ok. rewrite Hid, Hmode.
  split; [done|]. split; [done|].
  split; [by rewrite played_playerA|].
  split; [done|].
  split; [by apply played_opponent_not_initiator|].
  rewrite played_moveB.
  destruct ((1 <=? buttonIndex va) && (buttonIndex va <=? 3)
            && strictEqOpt (fid va) (playerB (played va m))) eqn:E.
  - intros _. apply andb_true_iff in E as [_ E].
    by destruct (playerB (played va m)).
  - intros Hs. apply Hmb in Hs as [pb Hpb].
    rewrite played_playerB, Hpb. by case_match.
Qed.

Lemma route_keeps_record_ok (matches : gmap string MatchState) (p : Post) :
  map_Forall record_ok matches →
  map_Forall record_ok (route env validate params matches p).1.
Proof.
  intros Hok.
  destruct (route_step matches p)
    as [-> | [(t & c & req & va & _ & _ & _ & ->)
             | (va & mid & m & Hne & Hm & [[Hw ->] | ->])]].
  - done.
  - apply map_Forall_insert_2; [|done].
    split; [done|]. split; [done|]. split; [by exists t|].
    split; [done|]. split; [done|]. simpl. by intros [? ?].
  - apply map_Forall_insert_2; [|done].
    apply played_record_ok; [by apply (Hok mid) | done].
  - by apply map_Forall_delete.
Qed.

Lemma serve_keeps_record_ok (ps : list Post) (matches : gmap string MatchState) :
  map_Forall record_ok matches →
  map_Forall record_ok (serve env validate params matches ps).
Proof.
  revert matches. induction ps as [|p ps IH]; intros matches Hok; [done|].
  apply IH. by apply route_keeps_record_ok.
Qed.

End Server.

(** From the empty store the server starts with, after any sequence of
    requests to the four routes and whatever the validator answers, every
    stored record sits under its own [id], has mode [pvp], and its key is
    the non-empty string made of a clock read and its initiator. *)
Theorem serve_keys_are_lobby_ids (env : Env) (validate : string → NeynarReply)
    (params : string → option (gmap string string)) (ps : list Post) :
  map_Forall (λ k m, id m = k ∧ mode m = pvp ∧ k ≠ EmptyString
                     ∧ ∃ t, k = newMatchId t (playerA m))
    (serve env validate params ∅ ps).
Proof.
  intros k m Hk.
  destruct (serve_keeps_record_ok env validate params ps ∅ (map_Forall_empty _) k m Hk)
    as (Hi & Hmo & [t Ht] & _).
  repeat split; try done.
  - rewrite Ht. apply newMatchId_nonempty.
  - by exists t.
Qed.

(** From the empty store, after any sequence of requests, no stored record
    has a (truthy) opponent and both moves: a match is removed by the very
    request that completes it, so every stored match is still waiting. *)
Theorem serve_stored_matches_wait (env : Env) (validate : string → NeynarReply)
    (params : string → option (gmap string string)) (ps : list Post) :
  map_Forall (λ _ m, mustWait m = true
                     ∧ ¬ (∃ pb a b, playerB m = Some pb ∧ pb ≠ 0
                            ∧ moveA m = Some a ∧ moveB m = Some b))
    (serve env validate params ∅ ps).
Proof.
  intros k m Hk.
  destruct (serve_keeps_record_ok env validate params ps ∅ (map_Forall_empty _) k m Hk)
    as (_ & _ & _ & Hw & _).
  split; [done|]. intros (pb & a & b & Hpb & Hnz & Ha & Hb).
  unfold mustWait in Hw. rewrite Hpb, Ha, Hb in Hw. simpl in Hw. lia.
Qed.

(** From the empty store, after any sequence of requests and for every
    identity value, no stored record has its initiator as opponent, and a
    record with a move recorded for the opponent has an opponent. *)
Theorem serve_opponent_consistent (env : Env) (validate : string → NeynarReply)
    (params : string → option (gmap string string)) (ps : list Post) :
  map_Forall (λ _ m, playerB m ≠ Some (playerA m)
                     ∧ (is_Some (moveB m) → is_Some (playerB m)))
    (serve env validate params ∅ ps).
Proof.
  intros k m Hk.
  destruct (serve_keeps_record_ok env validate params ps ∅ (map_Forall_empty _) k m Hk)
    as (_ & _ & _ & _ & Hab & Hmb).
  done.
Qed.

(** The only request that adds a key to the store is a verified tap on
    button 2 of [/action]; the key is the id made of its clock read and the
    caller.  [/bot] and [/connect] never change the store at all. *)
Theorem only_lobby_creation_adds (env : Env) (validate : string → NeynarReply)
    (params : string → option (gmap string string))
    (matches : gmap string MatchState) (p : Post) :
  (∀ k, matches !! k = None →
        is_Some ((route env validate params matches p).1 !! k) →
        ∃ t c req va, p = PostAction t c req
          ∧ verifyFrameAction env validate params req = inr va
          ∧ buttonIndex va = 2 ∧ k = newMatchId t (fid va))
  ∧ (∀ j req, (route env validate params matches (PostBot j req)).1 = matches)
  ∧ (∀ req, (route env validate params matches (PostConnect req)).1 = matches).
Proof.
  split; [|split].
  - intros k Hnone Hsome.
    destruct (route_step env validate params matches p)
      as [Heq | [(t & c & req & va & -> & Hv & Hb & Heq)
               | (va & mid & m & Hne & Hm & [[Hw Heq] | Heq])]];
      rewrite Heq in Hsome.
    + rewrite Hnone in Hsome. by destruct Hsome.
    + destruct (decide (newMatchId t (fid va) = k)) as [<-|Hk].
      * by exists t, c, req, va.
      * rewrite lookup_insert_ne, Hnone in Hsome by done. by destruct Hsome.
    + assert (mid ≠ k) by congruence.
      rewrite lookup_insert_ne, Hnone in Hsome by done. by destruct Hsome.
    + assert (mid ≠ k) by congruence.
      rewrite lookup_delete_ne, Hnone in Hsome by done. by destruct Hsome.
  - intros j req. simpl. unfold post_bot. by case_match.
  - intros req. simpl. unfold post_connect. by case_match.
Qed.

(** Every answer of a route is a screen with between one and four buttons.
    Its status is 401 exactly when the middleware rejected the request, and
    200 otherwise, also when the match is not found. *)
Theorem route_response_shape (env : Env) (validate : string → NeynarReply)
    (params : string → option (gmap string string))
    (matches : gmap string MatchState) (p : Post) :
  let r := (route env validate params matches p).2 in
  (1 ≤ length (buttons (screen r)) ≤ 4)%nat
  ∧ ((status r = 401 ∧ ∃ r', verifyFrameAction env validate params (requestOf p) = inl r')
     ∨ (status r = 200 ∧ ∃ va, verifyFrameAction env validate params (requestOf p) = inr va)).
Proof.
  destruct p as [t c req | k req | req | req]; simpl;
    unfold post_action, post_bot, post_pvp, post_connect;
    destruct (verifyFrameAction env validate params req) as [r|va] eqn:Hv.
  all: try (destruct (verify_rejects env validate params req r Hv) as (Hs & Hb & _);
            simpl; rewrite Hb; split; [simpl; lia | left; eauto]).
  - unfold action_handler. repeat case_match; simpl; (split; [lia | right; eauto]).
  - unfold bot_handler. repeat case_match; simpl; (split; [lia | right; eauto]).
  - unfold pvp_handler. repeat case_match; simpl; (split; [lia | right; eauto]).
  - simpl; (split; [lia | right; eauto]).
Qed.

(** ** [/bot] *)

(** A tap on [/bot] with a button index outside 1..3 gets the choose-a-move
    screen again.  With an index in 1..3 and a draw [k] below 3, the bot's
    move is one of the three moves and the title names it, followed by
    "Draw!" exactly for equal moves, "You Win!" exactly when the player's
    move beats the bot's, and "Bot Wins!" exactly when the bot's move beats
    the player's; the next callback target is [/action]. *)
Theorem bot_round (env : Env) (k : nat) (va : VerifiedAction) :
  (buttonIndex va < 1 ∨ 3 < buttonIndex va →
     bot_handler env k va = send (chooseFrame env)
     ∧ postUrl (chooseFrame env) = publicUrl env "/bot")
  ∧ (1 ≤ buttonIndex va ≤ 3 → (k < 3)%nat →
     ∃ pm bm o, moveMap (buttonIndex va) = Some pm
       ∧ chooseBotMove k = Some bm
       ∧ status (bot_handler env k va) = 200
       ∧ postUrl (screen (bot_handler env k va)) = publicUrl env "/action"
       ∧ title (screen (bot_handler env k va))
         = "Bot chose " +:+ moveName bm +:+ ". " +:+ o
       ∧ (o = "Draw!" ↔ pm = bm)
       ∧ (o = "You Win!" ↔ decideWinner pm bm = 1)
       ∧ (o = "Bot Wins!" ↔ decideWinner bm pm = 1)).
Proof.
  split.
  - intros Hb. unfold bot_handler, moveMap.
    assert ((buttonIndex va =? 1) = false) as -> by lia.
    assert ((buttonIndex va =? 2) = false) as -> by lia.
    by assert ((buttonIndex va =? 3) = false) as -> by lia.
  - intros Hb Hk.
    destruct (moveMap_in_range _ Hb) as [pm Hpm].
    assert (∃ bm, chooseBotMove k = Some bm) as [bm Hbm].
    { destruct k as [|[|[|k]]]; [by eexists..|lia]. }
    exists pm, bm, (outcomeTitle (decideWinner pm bm)).
    unfold bot_handler. rewrite Hpm, Hbm. simpl.
    do 5 (split; [done|]).
    destruct pm, bm; vm_compute; repeat split; congruence.
Qed.

(** ** The renderer *)

Lemma joinEmpty_app (xs ys : list string) :
  joinEmpty (xs ++ ys) = joinEmpty xs +:+ joinEmpty ys.
Proof.
  induction xs as [|x xs IH]; [done|].
  simpl. unfold joinEmpty in *. simpl. by rewrite IH, string_app_assoc.
Qed.




(** The callback target of a lobby screen determines the match: two lobby
    creations answer with the same target exactly when they read the same
    clock value and come from the same identity, and then they use the same
    key of the store. *)
Theorem lobby_callback_target_names_match (env : Env)
    (t1 c1 t2 c2 f1 f2 : Z) (st1 st2 : gmap string MatchState)
    (q1 q2 : option (gmap string string)) :
  postUrl (screen (action_handler env t1 c1 st1 (mkAction f1 2 q1)).2)
  = postUrl (screen (action_handler env t2 c2 st2 (mkAction f2 2 q2)).2)
  ↔ t1 = t2 ∧ f1 = f2.
Proof.
  unfold action_handler. simpl. unfold publicUrl. split.
  - intros H. apply (inj (String.app _)) in H. apply (inj (String.app _)) in H.
    by apply newMatchId_inj.
  - by intros [-> ->].
Qed.

(** ** Retries and resolution *)

Lemma MatchState_ext (m1 m2 : MatchState) :
  id m1 = id m2 → mode m1 = mode m2 → playerA m1 = playerA m2 →
  playerB m1 = playerB m2 → moveA m1 = moveA m2 → moveB m1 = moveB m2 →
  createdAt m1 = createdAt m2 → m1 = m2.
Proof. destruct m1, m2; simpl; intros; by subst. Qed.

Lemma played_creation_fields (va : VerifiedAction) (m : MatchState) :
  id (played va m) = id m ∧ mode (played va m) = mode m
  ∧ createdAt (played va m) = createdAt m.
Proof. unfold played, recordMove, bindOpponent. by repeat case_match. Qed.

Lemma played_playerB_idempotent (va : VerifiedAction) (m : MatchState) :
  playerB (played va (played va m)) = playerB (played va m).
Proof.
  rewrite (played_playerB va (played va m)), played_playerA.
  rewrite (played_playerB va m).
  destruct (jsNotNum (playerB m) && negb (fid va =? playerA m)) eqn:E;
    [by case_match | by rewrite E].
Qed.

Lemma played_idempotent (va : VerifiedAction) (m : MatchState) :
  played va (played va m) = played va m.
Proof.
  destruct (played_creation_fields va (played va m)) as (Hi & Hmo & Hc).
  apply MatchState_ext; try done.
  - apply played_playerA.
  - apply played_playerB_idempotent.
  - rewrite (played_moveA va (played va m)), played_playerA.
    rewrite (played_moveA va m). by case_match.
  - rewrite (played_moveB va (played va m)), played_playerB_idempotent.
    rewrite (played_moveB va m). by case_match.
Qed.

(** A retried tap is harmless: when a callback on a stored match gets a
    waiting screen, sending the same verified action again returns the same
    store and the same screen. *)
Theorem pvp_retry_idempotent (env : Env) (matches : gmap string MatchState)
    (va : VerifiedAction) (mid : string) (m : MatchState) :
  queryMatchId va = Some mid → mid ≠ EmptyString → matches !! mid = Some m →
  mustWait (played va m) = true →
  pvp_handler env (pvp_handler env matches va).1 va = pvp_handler env matches va.
Proof.
  intros Hq Hne Hm Hw.
  rewrite (pvp_handler_waits env matches va mid m) by done. simpl.
  rewrite (pvp_handler_waits env _ va mid (played va m));
    rewrite ?played_idempotent; try done.
  - by rewrite insert_insert_eq.
  - apply lookup_insert_eq.
Qed.

Lemma pvp_retry_idempotent_witness :
  pvp_handler env0
    (pvp_handler env0
       {[ "1000-100" := mkMatch "1000-100" pvp 100 None None None 1000 ]}
       (mkAction 200 3 (matchQuery "1000-100"))).1
    (mkAction 200 3 (matchQuery "1000-100"))
  = pvp_handler env0
      {[ "1000-100" := mkMatch "1000-100" pvp 100 None None None 1000 ]}
      (mkAction 200 3 (matchQuery "1000-100")).
Proof.
  apply (pvp_retry_idempotent env0
      {[ "1000-100" := mkMatch "1000-100" pvp 100 None None None 1000 ]}
      (mkAction 200 3 (matchQuery "1000-100")) "1000-100"
      (mkMatch "1000-100" pvp 100 None None None 1000));
    [reflexivity | discriminate | reflexivity | reflexivity].
Defined.

(** Only a player's move resolves a match.  For a stored waiting record
    whose opponent slot is empty or holds a non-zero identity, a callback
    that makes the record resolvable carries a button index in 1..3 and
    comes from the initiator or from the opponent (as bound after this
    tap): no other identity and no other button can end the match. *)
Theorem pvp_resolved_by_player_move (va : VerifiedAction) (m : MatchState) :
  playerB m ≠ Some 0 →
  (is_Some (moveB m) → is_Some (playerB m)) →
  mustWait m = true →
  mustWait (played va m) = false →
  1 ≤ buttonIndex va ≤ 3
  ∧ (fid va = playerA m ∨ playerB (played va m) = Some (fid va)).
Proof.
  intros Hz Hinv Hw Hres.
  destruct (mustWait_false _ Hres) as (pb & a & b & Hpb & Hnz & Ha & Hb).
  assert (moveA (played va m) = moveA m → moveB (played va m) = moveB m → False)
    as Hsame.
  { intros HA HB. rewrite Ha in HA. rewrite Hb in HB.
    destruct Hinv as [pb0 Hpb0]; [by rewrite <- HB|].
    unfold mustWait in Hw. rewrite Hpb0, <- HA, <- HB in Hw. simpl in Hw.
    rewrite !orb_false_r in Hw. apply Z.eqb_eq in Hw. congruence. }
  pose proof (played_moveA va m) as HA. pose proof (played_moveB va m) as HB.
  destruct ((1 <=? buttonIndex va) && (buttonIndex va <=? 3)) eqn:Er; simpl in *.
  - split; [lia|].
    destruct (fid va =? playerA m) eqn:Ea; [left; lia|].
    rewrite Hpb in HB |- *. simpl in HB.
    destruct (fid va =? pb) eqn:Eb; [right; f_equal; lia|].
    by destruct (Hsame HA HB).
  - by destruct (Hsame HA HB).
Qed.

Lemma pvp_resolved_by_player_move_witness :
  1 ≤ 2 ≤ 3 ∧ (100 = 100 ∨ Some 200 = Some 100).
Proof.
  apply (pvp_resolved_by_player_move (mkAction 100 2 (matchQuery "1000-100"))
           (mkMatch "1000-100" pvp 100 (Some 200) None (Some rock) 1000));
    [discriminate | by eexists | reflexivity | reflexivity].
Defined.
